(** * oxford_asl_roi_stats: region-wise perfusion statistics

    A shallow embedding of [oxford_asl_roi_stats.py] and the properties of
    its statistics functions, its ROI sample extractor, its ROI registrar
    and its perfusion-dataset selector.

    Numbers.  The script computes on NumPy [float64] values.  They are
    modelled by [num]: the finite values are exact rationals, and the three
    special values [+inf], [-inf] and [nan] behave as IEEE 754 prescribes.
    Rounding error and the sign of zero are idealised away; everything the
    script does with non-finite values (division by zero, [np.isfinite],
    [np.isnan], comparisons with [nan], [int()] of a non-finite value) is
    kept. *)

From Stdlib Require Import QArith Qcanon Ascii.
From stdpp Require Import gmap strings list fin_maps numbers pretty.

Local Open Scope Z_scope.

(** ** Numeric values *)

Inductive num : Type :=
| Fin (q : Qc)
| PInf
| NInf
| NaN.

Definition Qc_is_zero (q : Qc) : bool := (Qnum q =? 0)%Z.
Definition Qc_is_neg (q : Qc) : bool := (Qnum q <? 0)%Z.
Definition Qc_ltb (a b : Qc) : bool :=
  match (a ?= b)%Qc with Lt => true | _ => false end.

Definition num_of_Z (z : Z) : num := Fin (Qc_of_Z z).
Definition num_of_Q (q : Q) : num := Fin (Q2Qc q).

Definition inf_of_sign (negative : bool) : num :=
  if negative then NInf else PInf.

Definition nneg (x : num) : num :=
  match x with
  | Fin q => Fin (- q)%Qc
  | PInf => NInf
  | NInf => PInf
  | NaN => NaN
  end.

Definition nadd (x y : num) : num :=
  match x, y with
  | NaN, _ | _, NaN => NaN
  | Fin a, Fin b => Fin (a + b)%Qc
  | PInf, NInf | NInf, PInf => NaN
  | PInf, _ | _, PInf => PInf
  | NInf, _ | _, NInf => NInf
  end.

Definition nsub (x y : num) : num := nadd x (nneg y).

(** [inf * 0] is [nan]; the sign of an infinite product is the product of
    the signs. *)
Definition nmul_inf (negative : bool) (y : num) : num :=
  match y with
  | NaN => NaN
  | Fin b =>
      if Qc_is_zero b then NaN else inf_of_sign (xorb negative (Qc_is_neg b))
  | PInf => inf_of_sign negative
  | NInf => inf_of_sign (negb negative)
  end.

Definition nmul (x y : num) : num :=
  match x, y with
  | NaN, _ => NaN
  | Fin a, Fin b => Fin (a * b)%Qc
  | Fin _, _ => match y with
                | PInf => nmul_inf false x
                | NInf => nmul_inf true x
                | _ => NaN
                end
  | PInf, _ => nmul_inf false y
  | NInf, _ => nmul_inf true y
  end.

(** NumPy division: a zero divisor gives [nan] for [0/0] and an infinity
    otherwise (a warning, never an exception). *)
Definition ndiv (x y : num) : num :=
  match x, y with
  | NaN, _ | _, NaN => NaN
  | Fin a, Fin b =>
      if Qc_is_zero b
      then (if Qc_is_zero a then NaN else inf_of_sign (Qc_is_neg a))
      else Fin (a / b)%Qc
  | Fin _, _ => Fin 0%Qc
  | PInf, Fin b => inf_of_sign (Qc_is_neg b)
  | NInf, Fin b => inf_of_sign (negb (Qc_is_neg b))
  | _, _ => NaN
  end.

(** [x > y]; every comparison with [nan] is false. *)
Definition ngt (x y : num) : bool :=
  match x, y with
  | NaN, _ | _, NaN => false
  | Fin a, Fin b => Qc_ltb b a
  | PInf, PInf => false
  | PInf, _ => true
  | Fin _, NInf => true
  | _, _ => false
  end.

(** [np.isfinite] and [np.isnan]. *)
Definition isfinite (x : num) : bool :=
  match x with Fin _ => true | _ => false end.

Definition isnan (x : num) : bool :=
  match x with NaN => true | _ => false end.

(** Truncation toward zero and floor of a rational. *)
Definition Qc_trunc (q : Qc) : Z := Z.quot (Qnum q) (Zpos (Qden q)).
Definition Qc_floor (q : Qc) : Z := Z.div (Qnum q) (Zpos (Qden q)).

Definition Qc_is_integer (q : Qc) : bool := (Qnum q mod Zpos (Qden q) =? 0)%Z.

(** Rounding half-up: the largest integer not above [q + 1/2]. *)
Definition round_half_up (q : Qc) : Z := Qc_floor (q + Q2Qc (1 # 2))%Qc.

(** Decidable equality on [num], by computation. *)
Definition num_eqb (x y : num) : bool :=
  match x, y with
  | Fin a, Fin b => Qeq_bool a b
  | PInf, PInf | NInf, NInf | NaN, NaN => true
  | _, _ => false
  end.

(** ** Python exceptions and results *)

Inductive exn : Type :=
| ZeroDivisionError
| OverflowError
| ValueError (msg : string)
| NameError (msg : string).

Inductive result (A : Type) : Type :=
| Ok (a : A)
| Raise (e : exn).
Arguments Ok {A} a.
Arguments Raise {A} e.

Global Instance result_ret : MRet result := λ A a, Ok a.
Global Instance result_bind : MBind result := λ A B f m,
  match m with
  | Ok a => f a
  | Raise e => Raise e
  end.
Global Instance result_fmap : FMap result := λ A B f m,
  match m with
  | Ok a => Ok (f a)
  | Raise e => Raise e
  end.

(** The value a call returned, if it returned. *)
Definition returned {A} (r : result A) : option A :=
  match r with Ok a => Some a | Raise _ => None end.

(** ** Python numbers

    Python dispatches arithmetic on the run-time type of the operands: an
    [int], a Python [float], or a NumPy [float64] scalar.  True division by
    zero raises [ZeroDivisionError] unless an operand is a NumPy scalar, in
    which case NumPy's division applies. *)

Inductive pynum : Type :=
| PyInt (z : Z)
| PyFloat (x : num)
| NpFloat (x : num).

Definition is_np (a : pynum) : bool :=
  match a with NpFloat _ => true | _ => false end.

Definition py_float (a : pynum) : num :=
  match a with
  | PyInt z => num_of_Z z
  | PyFloat x | NpFloat x => x
  end.

Definition py_is_zero (a : pynum) : bool :=
  match a with
  | PyInt z => (z =? 0)%Z
  | PyFloat (Fin q) | NpFloat (Fin q) => Qc_is_zero q
  | _ => false
  end.

Definition py_arith (fz : Z → Z → Z) (fx : num → num → num) (a b : pynum) : pynum :=
  match a, b with
  | PyInt x, PyInt y => PyInt (fz x y)
  | _, _ =>
      if is_np a || is_np b
      then NpFloat (fx (py_float a) (py_float b))
      else PyFloat (fx (py_float a) (py_float b))
  end.

Definition py_add : pynum → pynum → pynum := py_arith Z.add nadd.
Definition py_sub : pynum → pynum → pynum := py_arith Z.sub nsub.
Definition py_mul : pynum → pynum → pynum := py_arith Z.mul nmul.

(** [a / b] *)
Definition py_truediv (a b : pynum) : result pynum :=
  if is_np a || is_np b then Ok (NpFloat (ndiv (py_float a) (py_float b)))
  else if py_is_zero b then Raise ZeroDivisionError
  else Ok (PyFloat (ndiv (py_float a) (py_float b))).

(** [a ** 2] *)
Definition py_square (a : pynum) : pynum := py_mul a a.

(** [int(a)]: truncation toward zero; [nan] and the infinities have no
    integer value. *)
Definition int_of_num (x : num) : result Z :=
  match x with
  | Fin q => Ok (Qc_trunc q)
  | NaN => Raise (ValueError "cannot convert float NaN to integer")
  | PInf | NInf => Raise OverflowError
  end.

Definition py_int (a : pynum) : result Z :=
  match a with
  | PyInt z => Ok z
  | PyFloat x | NpFloat x => int_of_num x
  end.

(** The builtin [sum]: starts from the [int] 0 and adds from the left. *)
Definition py_sum (l : list pynum) : pynum := fold_left py_add l (PyInt 0).

(** ** Statistic functions *)

(** [np.sum] of a one-dimensional float array (0.0 when empty). *)
Definition np_sum (a : list num) : num := fold_left nadd a (Fin 0%Qc).

(** [np.mean]: the sum divided by the number of elements. *)
Definition np_mean (a : list num) : num :=
  ndiv (np_sum a) (num_of_Z (Z.of_nat (length a))).

(** [_addvar]: add an unused variance parameter. *)
Definition _addvar {A} (f : list num → A) : list num → list num → A :=
  λ val var, f val.

(** [mean_invvarweighted].  [val * prec] multiplies element by element;
    both arrays come from the same boolean selection and have one length. *)
Definition mean_invvarweighted (val var : list num) : num :=
  let prec := (λ v, ndiv (Fin 1%Qc) v) <$> var in
  let prec := (λ p, if isfinite p then p else Fin 0%Qc) <$> prec in
  ndiv (np_sum (zip_with nmul val prec)) (np_sum prec).

(** [i2].  Iterating over a NumPy array yields NumPy scalars. *)
Definition i2 (val var : list num) : result Z :=
  let n := PyInt (Z.of_nat (length val)) in
  w ← mapM (λ x, py_truediv (PyInt 1) (NpFloat x)) var;
  mu_bar ← py_truediv (py_sum (zip_with py_mul w (NpFloat <$> val))) (py_sum w);
  let Q := py_sum (zip_with py_mul w
                     ((λ x, py_square (py_sub (NpFloat x) mu_bar)) <$> val)) in
  i2 ← py_truediv (py_sub Q (py_sub n (PyInt 1))) Q;
  py_int (py_add (py_mul (PyInt 100) i2) (PyFloat (num_of_Q (1 # 2)))).

(** ** Arrays and images *)

(** A NumPy array: its shape and its elements in row-major order. *)
Record ndarray (A : Type) : Type := mk_ndarray {
  shape : list nat;
  flat : list A
}.
Arguments mk_ndarray {A} shape flat.
Arguments shape {A} _.
Arguments flat {A} _.

(** An element-wise unary operation. *)
Definition np_map {A B} (f : A → B) (a : ndarray A) : ndarray B :=
  mk_ndarray (shape a) (f <$> flat a).

(** [np.logical_and(a, b)]; the two operands have one shape wherever the
    script calls it. *)
Definition np_logical_and (a b : ndarray bool) : ndarray bool :=
  mk_ndarray (shape a) (zip_with andb (flat a) (flat b)).

(** [a > t] for an array [a] and a scalar [t]. *)
Definition np_gt (a : ndarray num) (t : num) : ndarray bool :=
  np_map (λ x, ngt x t) a.

(** Selection of the elements of [a] where the mask is true, in order. *)
Fixpoint select {A} (m : list bool) (a : list A) : list A :=
  match m, a with
  | b :: m, x :: a => if b then x :: select m a else select m a
  | _, _ => []
  end.

(** [a[m]] for a boolean array [m] of the shape of [a]. *)
Definition bool_index {A} (a : ndarray A) (m : ndarray bool) : list A :=
  select (flat m) (flat a).

(** ** Values held in the statistics row *)

Inductive pyval : Type :=
| VNone
| VInt (z : Z)
| VFloat (x : num)
| VStr (s : string).

(** ** State and exceptions

    A computation that updates a mutable object of type [S] in place and
    either returns or raises.  The updates made before an exception stay. *)

Definition stateM (S A : Type) : Type := S → S * result A.

Definition st_ret {S A} (a : A) : stateM S A := λ s, (s, Ok a).

Definition st_bind {S A B} (m : stateM S A) (k : A → stateM S B) : stateM S B :=
  λ s, match m s with
       | (s', Ok a) => k a s'
       | (s', Raise e) => (s', Raise e)
       end.

Definition st_raise {S A} (e : exn) : stateM S A := λ s, (s, Raise e).

Definition st_lift {S A} (r : result A) : stateM S A := λ s, (s, r).

Definition st_modify {S} (f : S → S) : stateM S unit := λ s, (f s, Ok tt).

Notation "x ⇐ m ;; k" := (st_bind m (λ x, k))
  (at level 100, m at next level, right associativity).
Notation "m ;;; k" := (st_bind m (λ _, k))
  (at level 100, right associativity).

(** [for x in l: body(x)] *)
Fixpoint for_each {S A} (l : list A) (body : A → stateM S unit) : stateM S unit :=
  match l with
  | [] => st_ret tt
  | x :: l => body x ;;; for_each l body
  end.

(** [d[k] = v] on a dict. *)
Definition setitem (k : string) (v : pyval) : stateM (gmap string pyval) unit :=
  st_modify <[k := v]>.

(** ** The ROI sample extractor *)

Section extractor.

(** [np.std], [np.median] and [scipy.stats.iqr] are library reducers of one
    array to one float. *)
Variables np_std np_median scipy_iqr : list num → num.

Definition statfn : Type := list num → list num → result pyval.

(** [STATS_FNS], in the order of the dict literal. *)
Definition STATS_FNS : list (string * statfn) :=
  [ ("Mean", _addvar (λ a, Ok (VFloat (np_mean a))));
    ("Std", _addvar (λ a, Ok (VFloat (np_std a))));
    ("Median", _addvar (λ a, Ok (VFloat (np_median a))));
    ("IQR", _addvar (λ a, Ok (VFloat (scipy_iqr a))));
    ("Precision-weighted mean", λ val var, Ok (VFloat (mean_invvarweighted val var)));
    ("I2", λ val var, VInt <$> i2 val var) ].

(** The voxels that enter the sample (the [effective_roi] of [get_stats]). *)
Definition effective_roi (img : ndarray num) (roi : ndarray bool)
    (ignore_nan ignore_inf : bool) (mask : option (ndarray bool)) : ndarray bool :=
  let effective_roi := roi in
  let effective_roi :=
    if ignore_nan
    then np_logical_and effective_roi (np_map negb (np_map isnan img))
    else effective_roi in
  let effective_roi :=
    if ignore_inf
    then np_logical_and effective_roi (np_map isfinite img)
    else effective_roi in
  match mask with
  | Some mask => np_logical_and effective_roi mask
  | None => effective_roi
  end.

(** [get_stats].  [roi] is a boolean array, as the docstring requires.  The
    keyword defaults are [suffix=""], [ignore_nan=True], [ignore_inf=True],
    [min_nvoxels=10] and [mask=None]; [stats] is the dict the caller owns,
    and the first component of the result is that dict after the call. *)
Definition get_stats (stats : gmap string pyval) (img var_img : ndarray num)
    (roi : ndarray bool) (suffix : string) (ignore_nan ignore_inf : bool)
    (min_nvoxels : Z) (mask : option (ndarray bool))
    : gmap string pyval * result unit :=
  (if bool_decide (shape img ≠ shape roi)
   then st_raise (ValueError "Image must have same dimensions as ROI")
   else if bool_decide (shape var_img ≠ shape roi)
   then st_raise (ValueError "Variance image must have same dimensions as ROI")
   else if (match mask with
            | Some mask => bool_decide (shape mask ≠ shape roi)
            | None => false
            end)
   then st_raise (ValueError "Mask must have same dimensions as ROI")
   else
     let effective_roi := effective_roi img roi ignore_nan ignore_inf mask in
     let sample_data := bool_index img effective_roi in
     let sample_var := bool_index var_img effective_roi in
     let nvoxels := Z.of_nat (length sample_data) in
     setitem ("Nvoxels" +:+ suffix) (VInt nvoxels) ;;;
     for_each STATS_FNS (λ '(stat, fn),
       if (nvoxels <? min_nvoxels)%Z
       then setitem (stat +:+ suffix) VNone
       else (v ⇐ st_lift (fn sample_data sample_var) ;;
             setitem (stat +:+ suffix) v))) stats.

End extractor.

(** ** Images and the transform collaborator *)

Definition matrix : Type := list (list num).

(** An [fsl.data.image.Image]: the voxel array and the spatial header. *)
Record Image : Type := mk_Image {
  data : ndarray num;
  header : string
}.

(** The keyword arguments [_transform] hands to [fsl.applywarp]. *)
Record applywarp_kwargs : Type := mk_kwargs {
  kw_warp : option Image;
  kw_premat : option matrix;
  kw_postmat : option matrix;
  kw_rel : bool;
  kw_super : bool;
  kw_superlevel : string;
  kw_interp : string;
  kw_paddingsize : Z
}.

(** One entry of the ROI list.  A key the dict literal leaves out is [None].
    [mask_native] holds whatever array the operation stored: the boolean
    result of a comparison, or the numeric data of an image. *)
Inductive mask_data : Type :=
| MaskBool (a : ndarray bool)
| MaskNum (a : ndarray num).

Record roi_record : Type := mk_roi {
  name : string;
  roi_struct : option Image;
  roi_mni : option Image;
  roi_native : option Image;
  mask_native : mask_data
}.

(** An atlas description of the FSL atlas registry. *)
Record atlas_label : Type := mk_label {
  label_name : string;
  label_index : nat
}.

Record atlas_description : Type := mk_desc {
  atlasID : string;
  labels : list atlas_label
}.

(** [rois.append(r)] *)
Definition append (r : roi_record) : stateM (list roi_record) unit :=
  st_modify (λ rois, rois ++ [r]).

Definition threshold_default : num := num_of_Q (5 # 10).

(** ** The cross-space ROI registrar

    Writes to the log are console output and are left out. *)

Section registrar.

(** [fsl.applywarp(img, ref, out=fsl.LOAD, **kwargs)["out"]]: the external
    resampling engine. *)
Variable applywarp : Image → Image → applywarp_kwargs → Image.

(** The atlas registry: [getAtlasDescription], [loadAtlas] and
    [atlas.get(label=...)]. *)
Variable Atlas : Type.
Variable getAtlasDescription : string → atlas_description.
Variable loadAtlas : string → Z → Atlas.
Variable atlas_get : Atlas → atlas_label → Image.

(** [_transform].  The binarising branch reads [output_roi_threshold], a
    name that is not bound (the parameter is [output_roi_thresh]). *)
Definition _transform (img : Image) (warp : option Image) (ref : Image)
    (premat postmat : option matrix) (interp : string) (paddingsize : Z)
    (output_is_roi : bool) (output_roi_thresh : num) : result Image :=
  let kwargs := {|
    kw_warp := warp;
    kw_premat := premat;
    kw_postmat := postmat;
    kw_rel := true;
    kw_super := true;
    kw_superlevel := "a";
    kw_interp := interp;
    kw_paddingsize := paddingsize |} in
  let ret := applywarp img ref kwargs in
  if output_is_roi
  then Raise (NameError "name 'output_roi_threshold' is not defined")
  else Ok ret.

(** [add_native_roi] *)
Definition add_native_roi (roi : Image) (name : string)
    : stateM (list roi_record) unit :=
  append {| name := name; roi_struct := None; roi_mni := None;
            roi_native := None; mask_native := MaskNum (data roi) |}.

(** [add_struct_roi]; [threshold] is [None] when the caller leaves it out. *)
Definition add_struct_roi (roi : Image) (name : string) (ref : Image)
    (struct2asl : matrix) (threshold : option num)
    : stateM (list roi_record) unit :=
  let threshold := default threshold_default threshold in
  roi_native ⇐ st_lift (_transform roi None ref (Some struct2asl) None
                          "trilinear" 1 false threshold_default) ;;
  append {| name := name; roi_struct := Some roi; roi_mni := None;
            roi_native := Some roi_native;
            mask_native := MaskBool (np_gt (data roi_native) threshold) |}.

(** [add_mni_roi] *)
Definition add_mni_roi (roi : Image) (name : string) (mni2struc : Image)
    (ref : Image) (struct2asl : matrix) (threshold : option num)
    : stateM (list roi_record) unit :=
  let threshold := default threshold_default threshold in
  roi_native ⇐ st_lift (_transform roi (Some mni2struc) ref None (Some struct2asl)
                          "trilinear" 1 false threshold_default) ;;
  append {| name := name; roi_struct := None; roi_mni := Some roi;
            roi_native := Some roi_native;
            mask_native := MaskBool (np_gt (data roi_native) threshold) |}.

(** [add_rois_from_atlas]; [resolution] and [threshold] are [None] when the
    caller leaves them out (defaults 2 and 0.5).  Both only reach the log
    line: the atlas is loaded at [resolution=2] and every label is added
    with [threshold=50].  [registry.rescanAtlases()] refreshes the registry
    that [getAtlasDescription] and [loadAtlas] read. *)
Definition add_rois_from_atlas (mni2struc_warp ref_img : Image)
    (struct2asl_mat : matrix) (atlas_name : string)
    (resolution : option Z) (threshold : option num)
    : stateM (list roi_record) unit :=
  let resolution := default 2%Z resolution in
  let threshold := default threshold_default threshold in
  let desc := getAtlasDescription atlas_name in
  let atlas := loadAtlas (atlasID desc) 2 in
  for_each (labels desc) (λ label,
    add_mni_roi (atlas_get atlas label) (label_name label) mni2struc_warp
      ref_img struct2asl_mat (Some (num_of_Z 50))).

(** The atlas step of [main]. *)
Definition main_add_atlas_rois (add_atlas_rois : bool)
    (mni2struc_warp asl_ref : Image) (struct2asl_mat : matrix)
    : stateM (list roi_record) unit :=
  if add_atlas_rois
  then (add_rois_from_atlas mni2struc_warp asl_ref struct2asl_mat
          "harvardoxford-cortical" None (Some (num_of_Q (5 # 10))) ;;;
        add_rois_from_atlas mni2struc_warp asl_ref struct2asl_mat
          "harvardoxford-subcortical" None (Some (num_of_Q (5 # 10))))
  else st_ret tt.

End registrar.

(** ** The perfusion-dataset selector *)

Definition PVE_THRESHOLD_PVC : num := num_of_Q (1 # 10).
Definition PVE_THRESHOLD_NOPVC : num := num_of_Q (8 # 10).

Definition starts_with_sep (s : string) : bool :=
  match s with
  | String "/"%char _ => true
  | _ => false
  end.

Fixpoint ends_with_sep (s : string) : bool :=
  match s with
  | EmptyString => false
  | String "/"%char EmptyString => true
  | String _ s => ends_with_sep s
  end.

(** [os.path.join] on a POSIX system. *)
Definition os_path_join (a : string) (p : list string) : string :=
  fold_left (λ path b,
    if starts_with_sep b then b
    else if bool_decide (path = "") || ends_with_sep path then path +:+ b
    else path +:+ "/" +:+ b) p a.

(** ["%i" % x] *)
Definition format_i (x : pynum) : result string :=
  z ← py_int x; Ok (pretty z).

Record perfusion_record : Type := mk_perfusion {
  pd_suffix : string;
  pd_f : Image;
  pd_var : Image;
  pd_mask : option (ndarray bool)
}.

Section selector.

(** [Image(path)] reads an image file and [os.path.isdir] queries the file
    system. *)
Variable Image_load : string → Image.
Variable os_path_isdir : string → bool.

(** [get_perfusion_data] *)
Definition get_perfusion_data (outdir : string) (gm_pve_asl wm_pve_asl : Image)
    : result (list perfusion_record) :=
  let perfusion_data := [
    {| pd_suffix := "";
       pd_f := Image_load (os_path_join outdir ["perfusion_calib"]);
       pd_var := Image_load (os_path_join outdir ["perfusion_var_calib"]);
       pd_mask := None |} ] in
  if os_path_isdir (os_path_join outdir ["pvcorr"])
  then
    Ok (perfusion_data ++ [
      {| pd_suffix := " GM";
         pd_f := Image_load (os_path_join outdir ["pvcorr"; "perfusion_calib"]);
         pd_var := Image_load (os_path_join outdir ["pvcorr"; "perfusion_var_calib"]);
         pd_mask := Some (np_gt (data gm_pve_asl) PVE_THRESHOLD_PVC) |};
      {| pd_suffix := " WM";
         pd_f := Image_load (os_path_join outdir ["pvcorr"; "perfusion_wm_calib"]);
         pd_var := Image_load (os_path_join outdir ["pvcorr"; "perfusion_wm_var_calib"]);
         pd_mask := Some (np_gt (data wm_pve_asl) PVE_THRESHOLD_PVC) |} ])
  else
    pct_gm ← format_i (py_mul (PyFloat PVE_THRESHOLD_NOPVC) (PyInt 100));
    pct_wm ← format_i (py_mul (PyFloat PVE_THRESHOLD_NOPVC) (PyInt 100));
    Ok (perfusion_data ++ [
      {| pd_suffix := " " +:+ pct_gm +:+ "%+GM";
         pd_f := Image_load (os_path_join outdir ["perfusion_calib"]);
         pd_var := Image_load (os_path_join outdir ["perfusion_var_calib"]);
         pd_mask := Some (np_gt (data gm_pve_asl) PVE_THRESHOLD_NOPVC) |};
      {| pd_suffix := " " +:+ pct_wm +:+ "%+WM";
         pd_f := Image_load (os_path_join outdir ["perfusion_calib"]);
         pd_var := Image_load (os_path_join outdir ["perfusion_var_calib"]);
         pd_mask := Some (np_gt (data wm_pve_asl) PVE_THRESHOLD_NOPVC) |} ]).

End selector.

(** ** The statistics as the specification words them *)

(** [w_i = 1/var_i] *)
Definition I2_weights (var : list num) : list num :=
  (λ v, ndiv (num_of_Z 1) v) <$> var.

(** [mu = sum(w_i*val_i)/sum(w_i)] *)
Definition I2_mu (val var : list num) : num :=
  ndiv (np_sum (zip_with nmul (I2_weights var) val)) (np_sum (I2_weights var)).

(** [Q = sum(w_i*(val_i-mu)^2)] *)
Definition I2_Q (val var : list num) : num :=
  np_sum (zip_with nmul (I2_weights var)
            ((λ x, nmul (nsub x (I2_mu val var)) (nsub x (I2_mu val var))) <$> val)).

(** [100*(Q-(n-1))/Q], [n] the sample count *)
Definition I2_percent (val var : list num) : num :=
  nmul (num_of_Z 100)
    (ndiv (nsub (I2_Q val var) (num_of_Z (Z.of_nat (length val) - 1)))
          (I2_Q val var)).

(** The percentage rounded half-up, when it is a finite number. *)
Definition I2_rounded (val var : list num) : option Z :=
  match I2_percent val var with
  | Fin q => Some (round_half_up q)
  | _ => None
  end.

(** The precision [1/var] of one element. *)
Definition precision (v : num) : num := ndiv (Fin 1%Qc) v.

(** The precision-weighted mean over the elements whose precision is finite:
    the others enter neither sum. *)
Definition pwm_finite_precision (val var : list num) : num :=
  let kept := List.filter (λ p, isfinite (precision p.2)) (zip val var) in
  ndiv (np_sum ((λ p, nmul p.1 (precision p.2)) <$> kept))
       (np_sum ((λ p, precision p.2) <$> kept)).

(** The rank of voxel [i] among the voxels a mask selects. *)
Definition rank (m : list bool) (i : nat) : nat :=
  length (List.filter id (take i m)).

(** An array holds one element per cell of its grid. *)
Definition well_formed {A} (a : ndarray A) : Prop :=
  length (flat a) = foldr Nat.mul 1%nat (shape a).

(** The number of voxels a mask selects. *)
Definition count_true (m : list bool) : nat := length (List.filter id m).

(** [x > y] as a relation. *)
Definition num_gt (x y : num) : Prop :=
  match x, y with
  | Fin a, Fin b => (b < a)%Qc
  | PInf, Fin _ | PInf, NInf | Fin _, NInf => True
  | _, _ => False
  end.

(** [m] is [a] binarized at [t] over the full grid: one voxel of [m] per
    voxel of [a], true exactly where the intensity is strictly above [t]. *)
Definition binarizes (m : ndarray bool) (a : ndarray num) (t : num) : Prop :=
  shape m = shape a ∧ length (flat m) = length (flat a) ∧
  ∀ i x, flat a !! i = Some x →
    ∃ b, flat m !! i = Some b ∧ (b = true ↔ num_gt x t).

(** What the structural operation asks of the transform collaborator: the
    struct-to-native affine as pre-matrix, no warp. *)
Definition struct_kwargs (struct2asl : matrix) : applywarp_kwargs :=
  mk_kwargs None (Some struct2asl) None true true "a" "trilinear" 1.

(** What the MNI operation asks: the MNI-to-structural warp, then the
    struct-to-native affine as post-matrix. *)
Definition mni_kwargs (mni2struc : Image) (struct2asl : matrix) : applywarp_kwargs :=
  mk_kwargs (Some mni2struc) None (Some struct2asl) true true "a" "trilinear" 1.

(** A record whose [mask_native] is a boolean array on the grid [grid]. *)
Definition mask_on_grid (grid : list nat) (r : roi_record) : Prop :=
  ∃ m, mask_native r = MaskBool m ∧ shape m = grid.

(** The three shape-mismatch errors of [get_stats]. *)
Definition image_shape_error : exn :=
  ValueError "Image must have same dimensions as ROI".
Definition variance_shape_error : exn :=
  ValueError "Variance image must have same dimensions as ROI".
Definition mask_shape_error : exn :=
  ValueError "Mask must have same dimensions as ROI".

Definition is_shape_error (r : result unit) : Prop :=
  r = Raise image_shape_error ∨ r = Raise variance_shape_error ∨
  r = Raise mask_shape_error.

(** ** Sample inputs *)

Definition floats (l : list Z) : list num := num_of_Z <$> l.

(** A 2x2x1 grid: four voxels of a value image, their variances (one of
    them NaN) and an ROI covering the grid. *)
Definition grid_sample : list nat := [2; 2; 1]%nat.
Definition img_sample : ndarray num := mk_ndarray grid_sample (floats [1; 2; 5; 3]).
Definition var_sample : ndarray num :=
  mk_ndarray grid_sample [num_of_Z 1; NaN; num_of_Z 1; num_of_Z 1].
Definition unit_var_sample : ndarray num :=
  mk_ndarray grid_sample (floats [1; 1; 1; 1]).
Definition roi_sample : ndarray bool :=
  mk_ndarray grid_sample [true; true; true; false].

(** A reference image on that grid, and a one-voxel image off it whose
    only value is 2. *)
Definition reference_sample : Image :=
  mk_Image (mk_ndarray grid_sample (floats [0; 0; 0; 0])) "asl".
Definition native_roi_sample : Image :=
  mk_Image (mk_ndarray [1; 1; 1]%nat (floats [2])) "lesion".

(** A stand-in for the resampling engine: the voxels of the image, cut or
    padded with zeros to the grid of the reference. *)
Definition resample_sample (img ref : Image) (kwargs : applywarp_kwargs) : Image :=
  mk_Image
    (mk_ndarray (shape (data ref))
       (resize (length (flat (data ref))) (Fin 0%Qc) (flat (data img))))
    (header ref).

(** A stand-in atlas registry with two labels. *)
Definition atlas_description_sample (atlas_name : string) : atlas_description :=
  mk_desc atlas_name [mk_label "Frontal Pole" 0; mk_label "Insular Cortex" 1].
Definition atlas_get_sample (atlas : unit) (label : atlas_label) : Image :=
  mk_Image (mk_ndarray grid_sample
              (floats [Z.of_nat (label_index label); 80; 50; 20])) "mni".

(** ** The run orchestrator: ROI names, the ROI list, the rows, the files *)

(** Python string methods on ASCII text (ROI names and file names). *)
Fixpoint str_contains (c : ascii) (s : string) : bool :=
  match s with
  | EmptyString => false
  | String d s => Ascii.eqb c d || str_contains c s
  end.

(** [s.replace(c, d)] for one-character [c] and [d]. *)
Fixpoint str_replace_char (c d : ascii) (s : string) : string :=
  match s with
  | EmptyString => EmptyString
  | String e s => String (if Ascii.eqb e c then d else e) (str_replace_char c d s)
  end.

(** [s.replace(c, "")] for a one-character [c]. *)
Fixpoint str_remove_char (c : ascii) (s : string) : string :=
  match s with
  | EmptyString => EmptyString
  | String e s =>
      if Ascii.eqb e c then str_remove_char c s
      else String e (str_remove_char c s)
  end.

Definition is_upper (c : ascii) : bool :=
  (65 <=? N_of_ascii c)%N && (N_of_ascii c <=? 90)%N.

Definition ascii_lower (c : ascii) : ascii :=
  if is_upper c then ascii_of_N (N_of_ascii c + 32) else c.

(** [s.lower()] *)
Fixpoint str_lower (s : string) : string :=
  match s with
  | EmptyString => EmptyString
  | String c s => String (ascii_lower c) (str_lower s)
  end.

(** [os.path.basename]: what follows the last separator. *)
Fixpoint os_path_basename (p : string) : string :=
  match p with
  | EmptyString => EmptyString
  | String c p' =>
      if str_contains "/" p' then os_path_basename p'
      else if Ascii.eqb c "/" then p' else p
  end.

(** [s.split(".")[0]]: what precedes the first dot. *)
Fixpoint split_dot_first (s : string) : string :=
  match s with
  | EmptyString => EmptyString
  | String c s => if Ascii.eqb c "." then EmptyString else String c (split_dot_first s)
  end.

(** The name [main] gives a user-supplied ROI:
    [os.path.basename(fname).split(".")[0]]. *)
Definition roi_name_of_file (fname : string) : string :=
  split_dot_first (os_path_basename fname).

(** The file name [main] saves the images of an ROI under:
    [roi["name"].replace(" ", "_").replace(",", "").lower() + ".nii.gz"]. *)
Definition roi_file_stem (name : string) : string :=
  str_lower (str_remove_char "," (str_replace_char " " "_" name)).

Definition roi_filename (name : string) : string :=
  roi_file_stem name +:+ ".nii.gz".

(** The command-line options [main] reads when it builds the ROI list and
    the rows. *)
Record options : Type := mk_options {
  opt_roi_native : list string;
  opt_roi_struct : list string;
  opt_roi_mni : list string;
  opt_add_atlas_rois : bool;
  opt_min_nvoxels : Z
}.

(** The truth value NumPy gives a float: everything but zero is true. *)
Definition truth_value (x : num) : bool :=
  match x with
  | Fin q => negb (Qc_is_zero q)
  | _ => true
  end.

(** The ROI array as [get_stats] uses it when [main] calls it: with
    [ignore_nan] left at [True] the first thing done with [roi] is
    [np.logical_and(roi, ...)], which reads a numeric array by truth
    value. *)
Definition mask_array (m : mask_data) : ndarray bool :=
  match m with
  | MaskBool a => a
  | MaskNum a => np_map truth_value a
  end.

Section orchestrator.

Variable applywarp : Image → Image → applywarp_kwargs → Image.
Variable Atlas : Type.
Variable getAtlasDescription : string → atlas_description.
Variable loadAtlas : string → Z → Atlas.
Variable atlas_get : Atlas → atlas_label → Image.
Variable Image_load : string → Image.
Variables np_std np_median scipy_iqr : list num → num.

(** [main], from [rois = []] to the atlas step: the fixed GM/WM ROIs at
    PVE thresholds 0.1 and 0.8, the ROIs of the command line, the atlas
    ROIs.  This is the run in which [Image(fname)], [fsl.applywarp] and the
    atlas registry return: [main] catches nothing, so an exception of
    theirs (a missing ROI file, a failed transform, an unknown atlas) ends
    the run at that call, and that run is not described here. *)
Definition main_rois (opts : options) (asl_ref gm_pve wm_pve mni2struc_warp : Image)
    (struct2asl_mat : matrix) : stateM (list roi_record) unit :=
  for_each [num_of_Q (1 # 10); num_of_Q (8 # 10)] (λ pv,
    (pct ⇐ st_lift (format_i (py_mul (PyFloat pv) (PyInt 100))) ;;
     add_struct_roi applywarp gm_pve (pct +:+ "%+GM") asl_ref struct2asl_mat
       (Some pv)) ;;;
    (pct ⇐ st_lift (format_i (py_mul (PyFloat pv) (PyInt 100))) ;;
     add_struct_roi applywarp wm_pve (pct +:+ "%+WM") asl_ref struct2asl_mat
       (Some pv))) ;;;
  for_each (opt_roi_native opts) (λ fname,
    add_native_roi (Image_load fname) (roi_name_of_file fname)) ;;;
  for_each (opt_roi_struct opts) (λ fname,
    add_struct_roi applywarp (Image_load fname) (roi_name_of_file fname)
      asl_ref struct2asl_mat None) ;;;
  for_each (opt_roi_mni opts) (λ fname,
    add_mni_roi applywarp (Image_load fname) (roi_name_of_file fname)
      mni2struc_warp asl_ref struct2asl_mat None) ;;;
  main_add_atlas_rois applywarp Atlas getAtlasDescription loadAtlas atlas_get
    (opt_add_atlas_rois opts) mni2struc_warp asl_ref struct2asl_mat.

(** The row of one ROI: [roi["stats"] = {"name" : roi["name"]}], then
    [get_stats] once per perfusion dataset on that dict. *)
Definition main_roi_stats (perfusion_data : list perfusion_record)
    (min_nvoxels : Z) (roi : roi_record) : gmap string pyval * result unit :=
  for_each perfusion_data (λ item stats,
    get_stats np_std np_median scipy_iqr stats (data (pd_f item))
      (data (pd_var item)) (mask_array (mask_native roi)) (pd_suffix item)
      true true min_nvoxels (pd_mask item))
    {[ "name" := VStr (name roi) ]}.

End orchestrator.

(** The columns [get_stats] writes for a suffix. *)
Definition stat_names : list string :=
  ["Nvoxels"; "Mean"; "Std"; "Median"; "IQR"; "Precision-weighted mean"; "I2"].

Definition stat_keys (suffix : string) : list string :=
  (λ stat, stat +:+ suffix) <$> stat_names.

(** Sample inputs for the orchestrator. *)
Definition options_sample : options :=
  mk_options ["rois/lesion.nii.gz"] ["/data/Left Thalamus.nii"] [] true 10.

Definition perfusion_data_sample : list perfusion_record :=
  [ mk_perfusion "" (mk_Image img_sample "f") (mk_Image unit_var_sample "v") None;
    mk_perfusion " GM" (mk_Image img_sample "f") (mk_Image unit_var_sample "v")
      (Some roi_sample) ].

(* ================================================================== *)
(** * Properties *)

(** ** Arithmetic of [num] *)

Lemma num_eqb_eq x y : num_eqb x y = true → x = y.
Proof.
  destruct x as [a| | |], y as [b| | |]; simpl; try done.
  intros H. f_equal. apply Qc_is_canon. by apply Qeq_bool_eq.
Qed.

Lemma list_num_eqb_eq (l1 l2 : list num) :
  forallb (λ p, num_eqb p.1 p.2) (zip l1 l2) = true →
  length l1 = length l2 → l1 = l2.
Proof.
  revert l2. induction l1 as [|x l1 IH]; intros [|y l2]; simpl; try done.
  intros [Hx Hl]%andb_prop Hlen. f_equal.
  - by apply num_eqb_eq.
  - apply IH; [done | lia].
Qed.

Lemma num_of_Z_0 : num_of_Z 0 = Fin 0%Qc.
Proof. by apply num_eqb_eq. Qed.

Lemma num_of_Z_1 : num_of_Z 1 = Fin 1%Qc.
Proof. by apply num_eqb_eq. Qed.

Lemma nadd_0_l x : nadd (Fin 0%Qc) x = x.
Proof. destruct x; simpl; try done. by rewrite Qcplus_0_l. Qed.

Lemma nadd_0_r x : nadd x (Fin 0%Qc) = x.
Proof. destruct x; simpl; try done. by rewrite Qcplus_0_r. Qed.

Lemma nmul_1_r x : nmul x (Fin 1%Qc) = x.
Proof. destruct x; simpl; try done. by rewrite Qcmult_1_r. Qed.

Lemma nmul_0_r_finite x : isfinite x = true → nmul x (Fin 0%Qc) = Fin 0%Qc.
Proof. destruct x; simpl; try done. intros _. by rewrite Qcmult_0_r. Qed.

Lemma precision_1 : precision (Fin 1%Qc) = Fin 1%Qc.
Proof. by apply num_eqb_eq. Qed.

Lemma Qc_ltb_lt a b : Qc_ltb a b = true ↔ (a < b)%Qc.
Proof.
  unfold Qc_ltb. rewrite Qclt_alt. destruct (a ?= b)%Qc; split; congruence.
Qed.

Lemma ngt_num_gt x y : ngt x y = true ↔ num_gt x y.
Proof.
  destruct x, y; simpl; try (split; (done || congruence)).
  apply Qc_ltb_lt.
Qed.

(** ** The heterogeneity statistic *)

Lemma mapM_weights var :
  mapM (λ x, py_truediv (PyInt 1) (NpFloat x)) var = Ok (NpFloat <$> I2_weights var).
Proof.
  induction var as [|v var IH]; [done|].
  cbn [mapM]. rewrite IH. done.
Qed.

Lemma zip_with_py_mul_np a b :
  zip_with py_mul (NpFloat <$> a) (NpFloat <$> b) = NpFloat <$> zip_with nmul a b.
Proof.
  revert b. induction a as [|x a IH]; intros [|y b]; simpl; try done.
  by rewrite IH.
Qed.

Lemma fold_py_add_np l acc :
  fold_left py_add (NpFloat <$> l) (NpFloat acc) = NpFloat (fold_left nadd l acc).
Proof. revert acc. induction l as [|x l IH]; intros acc; simpl; [done|]. apply IH. Qed.

Lemma py_sum_np l :
  py_sum (NpFloat <$> l) =
  match l with [] => PyInt 0 | _ :: _ => NpFloat (np_sum l) end.
Proof.
  destruct l as [|x l]; [done|].
  unfold py_sum, np_sum. cbn [fmap list_fmap fold_left].
  change (py_add (PyInt 0) (NpFloat x)) with (NpFloat (nadd (num_of_Z 0) x)).
  by rewrite fold_py_add_np, num_of_Z_0.
Qed.

Lemma py_sum_np_cons l : l ≠ [] → py_sum (NpFloat <$> l) = NpFloat (np_sum l).
Proof. intros Hl. rewrite py_sum_np. by destruct l. Qed.

Lemma squares_np mu (val : list num) :
  (λ x, py_square (py_sub (NpFloat x) (NpFloat mu))) <$> val =
  NpFloat <$> ((λ x, nmul (nsub x mu) (nsub x mu)) <$> val).
Proof. rewrite <-list_fmap_compose. by apply list_fmap_ext. Qed.

(** On a non-empty sample with as many variances as values, [i2] is
    [int(100*(Q-(n-1))/Q + 0.5)], with [int] truncating toward zero. *)
Lemma i2_nonempty val var :
  val ≠ [] → length val = length var →
  i2 val var = int_of_num (nadd (I2_percent val var) (num_of_Q (1 # 2))).
Proof.
  intros Hne Hlen.
  assert (Hw : I2_weights var ≠ []).
  { destruct var; [|done]. by destruct val. }
  assert (Hz : ∀ l, l ≠ [] → length l = length val →
               zip_with nmul (I2_weights var) l ≠ []).
  { intros [|y l] Hl _; [done|]. by destruct (I2_weights var). }
  unfold i2. rewrite mapM_weights. cbn [mbind result_bind].
  rewrite (zip_with_py_mul_np (I2_weights var) val).
  rewrite !py_sum_np_cons by auto.
  change (py_truediv (NpFloat ?a) (NpFloat ?b)) with (Ok (NpFloat (ndiv a b))).
  cbn [mbind result_bind].
  rewrite squares_np, zip_with_py_mul_np, py_sum_np_cons.
  - reflexivity.
  - apply Hz; [by destruct val | by rewrite length_fmap].
Qed.

(** An empty sample: both sums are the [int] 0 and the first division
    raises. *)
Lemma i2_empty : i2 [] [] = Raise ZeroDivisionError.
Proof. reflexivity. Qed.

(** On a sample with as many variances as values, [i2] returns exactly when
    [100*(Q-(n-1))/Q + 0.5] is finite, and then returns that number
    truncated toward zero. *)
Lemma i2_returned val var :
  length val = length var →
  returned (i2 val var) =
  returned (int_of_num (nadd (I2_percent val var) (num_of_Q (1 # 2)))).
Proof.
  intros Hlen. destruct val as [|x val].
  - destruct var; [|done]. by vm_compute.
  - by rewrite i2_nonempty.
Qed.

(** Truncation toward zero against floor: they differ, by one, exactly on
    the negative numbers that are not integers. *)
Lemma Z_mul_between b d k :
  (0 < b)%Z → (b * d = k)%Z → (0 ≤ k < b)%Z → d = 0%Z.
Proof.
  intros Hb Hk Hrange.
  destruct (Z.lt_trichotomy d 0) as [Hd|[Hd|Hd]]; [|done|].
  - assert (b * d ≤ b * (-1))%Z by (apply Z.mul_le_mono_nonneg_l; lia). lia.
  - assert (b * 1 ≤ b * d)%Z by (apply Z.mul_le_mono_nonneg_l; lia). lia.
Qed.

Lemma Z_mul_between_1 b d k :
  (0 < b)%Z → (b * d = k)%Z → (0 < k < 2 * b)%Z → d = 1%Z.
Proof.
  intros Hb Hk Hrange.
  destruct (Z.lt_trichotomy d 1) as [Hd|[Hd|Hd]]; [|done|].
  - assert (b * d ≤ b * 0)%Z by (apply Z.mul_le_mono_nonneg_l; lia). lia.
  - assert (b * 2 ≤ b * d)%Z by (apply Z.mul_le_mono_nonneg_l; lia). lia.
Qed.

Lemma Z_quot_div a b :
  (0 < b)%Z →
  (a ÷ b = a / b + if (a <? 0) && negb (a mod b =? 0) then 1 else 0)%Z.
Proof.
  intros Hb.
  pose proof (Z.quot_rem' a b) as Hq.
  pose proof (Z.div_mod a b ltac:(lia)) as Hd.
  pose proof (Z.mod_pos_bound a b Hb) as Hm.
  set (x := (a ÷ b)%Z) in *. set (y := (a / b)%Z) in *.
  destruct (Z.ltb_spec a 0) as [Hneg|Hpos]; simpl.
  - pose proof (Z.rem_bound_pos_neg a b Hb ltac:(lia)) as Hr.
    destruct (Z.eqb_spec (a mod b) 0) as [Hz|Hnz]; simpl.
    + assert (x - y = 0)%Z; [|lia].
      apply (Z_mul_between b _ (a mod b - Z.rem a b)); lia.
    + assert (x - y = 1)%Z; [|lia].
      apply (Z_mul_between_1 b _ (a mod b - Z.rem a b)); lia.
  - pose proof (Z.rem_bound_pos_pos a b Hb ltac:(lia)) as Hr.
    assert (x - y = 0)%Z; [|lia].
    destruct (Z.lt_trichotomy (x - y) 0) as [Hd'|[Hd'|Hd']]; [|done|].
    + assert (b * (x - y) ≤ b * (-1))%Z by (apply Z.mul_le_mono_nonneg_l; lia). lia.
    + assert (b * 1 ≤ b * (x - y))%Z by (apply Z.mul_le_mono_nonneg_l; lia). lia.
Qed.

Lemma Qc_trunc_floor q :
  Qc_trunc q =
  (Qc_floor q + if Qc_is_neg q && negb (Qc_is_integer q) then 1 else 0)%Z.
Proof. apply Z_quot_div. lia. Qed.

Lemma Qc_is_neg_nonneg q : (0 ≤ q)%Qc → Qc_is_neg q = false.
Proof.
  unfold Qcle, Qle, Qc_is_neg. simpl. intros H. apply Z.ltb_ge. lia.
Qed.

Lemma Qc_is_neg_lt q : (q < 0)%Qc → Qc_is_neg q = true.
Proof.
  unfold Qclt, Qlt, Qc_is_neg. simpl. intros H. apply Z.ltb_lt. lia.
Qed.

(** Where the percentage is at least -1/2, [i2] is the percentage rounded
    half-up. *)
Lemma i2_half_up val var q :
  length val = length var →
  I2_percent val var = Fin q →
  (- Q2Qc (1 # 2) ≤ q)%Qc →
  i2 val var = Ok (round_half_up q).
Proof.
  intros Hlen Hq Hge.
  assert (Hne : val ≠ []).
  { intros ->. destruct var; [|done]. by vm_compute in Hq. }
  rewrite i2_nonempty, Hq by done. simpl. f_equal.
  rewrite Qc_trunc_floor, Qc_is_neg_nonneg; [simpl; unfold round_half_up; lia|].
  apply (Qcplus_le_mono_r _ _ (Q2Qc (1#2))) in Hge.
  by rewrite (Qcplus_comm (- _)), Qcplus_opp_r in Hge.
Qed.

(** Below -1/2 the result is one above the half-up rounding, unless
    [percentage + 1/2] is an integer. *)
Lemma i2_below_half val var q :
  length val = length var →
  I2_percent val var = Fin q →
  (q < - Q2Qc (1 # 2))%Qc →
  i2 val var =
  Ok (round_half_up q +
      if Qc_is_integer (q + Q2Qc (1 # 2))%Qc then 0 else 1)%Z.
Proof.
  intros Hlen Hq Hlt.
  assert (Hne : val ≠ []).
  { intros ->. destruct var; [|done]. by vm_compute in Hq. }
  rewrite i2_nonempty, Hq by done. simpl. f_equal.
  rewrite Qc_trunc_floor, Qc_is_neg_lt.
  - unfold round_half_up. by destruct (Qc_is_integer _).
  - apply (Qcplus_lt_mono_r _ _ (Q2Qc (1#2))) in Hlt.
    by rewrite (Qcplus_comm (- _)), Qcplus_opp_r in Hlt.
Qed.

(** ** The precision-weighted mean *)

(** The precision after [prec[~np.isfinite(prec)] = 0]. *)
Lemma mean_invvarweighted_unfold val var :
  mean_invvarweighted val var =
  let prec := (λ v, if isfinite (precision v) then precision v else Fin 0%Qc) <$> var in
  ndiv (np_sum (zip_with nmul val prec)) (np_sum prec).
Proof.
  unfold mean_invvarweighted. cbv zeta. by rewrite <-list_fmap_compose.
Qed.

(** Summing from the left, an element whose precision was zeroed changes
    neither sum when its value is finite. *)
Lemma fold_sums_finite_precision val var accn accd :
  Forall2 (λ x v, isfinite (precision v) = false → isfinite x = true) val var →
  let prec := (λ v, if isfinite (precision v) then precision v else Fin 0%Qc) <$> var in
  let kept := List.filter (λ p, isfinite (precision p.2)) (zip val var) in
  fold_left nadd (zip_with nmul val prec) accn =
    fold_left nadd ((λ p, nmul p.1 (precision p.2)) <$> kept) accn ∧
  fold_left nadd prec accd = fold_left nadd ((λ p, precision p.2) <$> kept) accd.
Proof.
  intros H. revert accn accd.
  induction H as [|x v val var Hxv _ IH]; intros accn accd; [done|].
  cbn [fmap list_fmap zip zip_with List.filter fold_left fst snd].
  destruct (isfinite (precision v)) eqn:Hfin.
  - cbn [fmap list_fmap fold_left fst snd]. apply IH.
  - rewrite nmul_0_r_finite, !nadd_0_r by auto. apply IH.
Qed.

Lemma unit_precisions var :
  Forall (λ v, v = Fin 1%Qc) var →
  (λ v, if isfinite (precision v) then precision v else Fin 0%Qc) <$> var = var.
Proof.
  induction 1 as [|v var -> _ IH]; [done|].
  cbn [fmap list_fmap]. rewrite IH, precision_1. done.
Qed.

Lemma zip_with_nmul_units val var :
  length var = length val → Forall (λ v, v = Fin 1%Qc) var →
  zip_with nmul val var = val.
Proof.
  intros Hlen Hvar. revert val Hlen.
  induction Hvar as [|v var -> _ IH]; intros [|x val] Hlen; simpl in *; try done.
  rewrite nmul_1_r, IH; [done | lia].
Qed.

Lemma fold_nadd_units var a :
  Forall (λ v, v = Fin 1%Qc) var →
  fold_left nadd var (Fin a) = Fin (a + Qc_of_Z (Z.of_nat (length var)))%Qc.
Proof.
  intros Hvar. revert a.
  induction Hvar as [|v var -> _ IH]; intros a.
  - cbn [fold_left length]. change (Z.of_nat 0) with 0%Z.
    by rewrite Z2Qc_inj_0, Qcplus_0_r.
  - cbn [fold_left nadd length]. rewrite IH.
    rewrite Nat2Z.inj_succ, <-Z.add_1_l, Z2Qc_inj_add, Z2Qc_inj_1.
    by rewrite Qcplus_assoc.
Qed.

Lemma np_sum_units var :
  Forall (λ v, v = Fin 1%Qc) var →
  np_sum var = num_of_Z (Z.of_nat (length var)).
Proof.
  intros Hvar. unfold np_sum. rewrite fold_nadd_units by done.
  by rewrite Qcplus_0_l.
Qed.

(** With unit variances the precision-weighted mean is the mean, whatever
    the sample holds. *)
Lemma mean_invvarweighted_units val var :
  length var = length val → Forall (λ v, v = Fin 1%Qc) var →
  mean_invvarweighted val var = np_mean val.
Proof.
  intros Hlen Hvar. rewrite mean_invvarweighted_unfold. cbv zeta.
  rewrite unit_precisions by done.
  rewrite zip_with_nmul_units by done.
  rewrite (np_sum_units var) by done.
  unfold np_mean. by rewrite Hlen.
Qed.

(** The exceptions [i2] can raise. *)
Lemma py_truediv_raises a b e : py_truediv a b = Raise e → e = ZeroDivisionError.
Proof.
  unfold py_truediv. destruct (is_np a || is_np b); [done|].
  destruct (py_is_zero b); congruence.
Qed.

Lemma py_int_raises a e :
  py_int a = Raise e →
  e = OverflowError ∨ e = ValueError "cannot convert float NaN to integer".
Proof.
  destruct a as [z|x|x]; simpl; [done| |]; destruct x; simpl; intros [=]; auto.
Qed.

Lemma result_bind_raises {A B} (m : result A) (f : A → result B) e :
  m ≫= f = Raise e → m = Raise e ∨ ∃ a, m = Ok a ∧ f a = Raise e.
Proof. destruct m as [a|e']; cbn; [eauto | intros [= ->]; auto]. Qed.

Lemma i2_raises val var e :
  i2 val var = Raise e →
  e = ZeroDivisionError ∨ e = OverflowError ∨
  e = ValueError "cannot convert float NaN to integer".
Proof.
  unfold i2. rewrite mapM_weights. cbn [mbind result_bind].
  intros [H1|(mu & _ & [H2|(r & _ & H3)]%result_bind_raises)]%result_bind_raises.
  - apply py_truediv_raises in H1. tauto.
  - apply py_truediv_raises in H2. tauto.
  - apply py_int_raises in H3. tauto.
Qed.

(** ** The ROI sample extractor *)

Ltac run_get_stats :=
  unfold STATS_FNS; cbn [for_each];
  unfold st_bind, setitem, st_modify, st_lift, st_ret, _addvar.

Ltac lookup_stat :=
  repeat (rewrite lookup_insert_ne by (cbv [String.append]; congruence));
  try rewrite lookup_insert_eq; try reflexivity.

Ltac stat_cases H :=
  unfold STATS_FNS in H; rewrite !elem_of_cons, elem_of_nil in H;
  destruct H as [H|[H|[H|[H|[H|[H|[]]]]]]]; injection H as -> ->.

Section extractor_properties.

Variables np_std np_median scipy_iqr : list num → num.

Local Abbreviation STATS := (STATS_FNS np_std np_median scipy_iqr).
Local Abbreviation get_stats_ := (get_stats np_std np_median scipy_iqr).

Lemma get_stats_shapes_ok stats img var_img roi suffix ignore_nan ignore_inf
    min_nvoxels mask :
  shape img = shape roi → shape var_img = shape roi →
  (∀ m, mask = Some m → shape m = shape roi) →
  get_stats_ stats img var_img roi suffix ignore_nan ignore_inf min_nvoxels mask =
  let effective_roi := effective_roi img roi ignore_nan ignore_inf mask in
  let sample_data := bool_index img effective_roi in
  let sample_var := bool_index var_img effective_roi in
  let nvoxels := Z.of_nat (length sample_data) in
  (setitem ("Nvoxels" +:+ suffix) (VInt nvoxels) ;;;
   for_each STATS (λ '(stat, fn),
     if (nvoxels <? min_nvoxels)%Z
     then setitem (stat +:+ suffix) VNone
     else (v ⇐ st_lift (fn sample_data sample_var) ;;
           setitem (stat +:+ suffix) v))) stats.
Proof.
  intros Himg Hvar Hmask. unfold get_stats.
  rewrite !bool_decide_eq_false_2 by (intros H; by apply H).
  destruct mask as [m|]; [|done].
  rewrite bool_decide_eq_false_2; [done|]. intros H. by apply H, Hmask.
Qed.

(** Below the minimum every statistic is [None]; the count is written. *)
Lemma get_stats_below stats img var_img roi suffix ignore_nan ignore_inf
    min_nvoxels mask :
  shape img = shape roi → shape var_img = shape roi →
  (∀ m, mask = Some m → shape m = shape roi) →
  let effective_roi := effective_roi img roi ignore_nan ignore_inf mask in
  let nvoxels := Z.of_nat (length (bool_index img effective_roi)) in
  (nvoxels < min_nvoxels)%Z →
  get_stats_ stats img var_img roi suffix ignore_nan ignore_inf min_nvoxels mask =
  (<["I2" +:+ suffix := VNone]>
     (<["Precision-weighted mean" +:+ suffix := VNone]>
        (<["IQR" +:+ suffix := VNone]>
           (<["Median" +:+ suffix := VNone]>
              (<["Std" +:+ suffix := VNone]>
                 (<["Mean" +:+ suffix := VNone]>
                    (<["Nvoxels" +:+ suffix := VInt nvoxels]> stats)))))),
   Ok tt).
Proof.
  intros Himg Hvar Hmask eff n Hn.
  rewrite get_stats_shapes_ok by done. cbv zeta. fold eff. fold n.
  run_get_stats. apply Z.ltb_lt in Hn. by rewrite Hn.
Qed.

(** At or above the minimum the five float statistics are written in turn,
    then [i2] decides how the call ends. *)
Lemma get_stats_enough stats img var_img roi suffix ignore_nan ignore_inf
    min_nvoxels mask :
  shape img = shape roi → shape var_img = shape roi →
  (∀ m, mask = Some m → shape m = shape roi) →
  let effective_roi := effective_roi img roi ignore_nan ignore_inf mask in
  let sample_data := bool_index img effective_roi in
  let sample_var := bool_index var_img effective_roi in
  let nvoxels := Z.of_nat (length sample_data) in
  (min_nvoxels ≤ nvoxels)%Z →
  let written :=
    <["Precision-weighted mean" +:+ suffix :=
        VFloat (mean_invvarweighted sample_data sample_var)]>
      (<["IQR" +:+ suffix := VFloat (scipy_iqr sample_data)]>
         (<["Median" +:+ suffix := VFloat (np_median sample_data)]>
            (<["Std" +:+ suffix := VFloat (np_std sample_data)]>
               (<["Mean" +:+ suffix := VFloat (np_mean sample_data)]>
                  (<["Nvoxels" +:+ suffix := VInt nvoxels]> stats))))) in
  get_stats_ stats img var_img roi suffix ignore_nan ignore_inf min_nvoxels mask =
  match i2 sample_data sample_var with
  | Ok z => (<["I2" +:+ suffix := VInt z]> written, Ok tt)
  | Raise e => (written, Raise e)
  end.
Proof.
  intros Himg Hvar Hmask eff sd sv n Hn written.
  rewrite get_stats_shapes_ok by done. cbv zeta. fold eff. fold sd. fold sv. fold n.
  run_get_stats. apply Z.ltb_ge in Hn. rewrite Hn.
  by destruct (i2 sd sv).
Qed.

Lemma length_select {A} (m : list bool) (a : list A) :
  (length m ≤ length a)%nat → length (select m a) = count_true m.
Proof.
  revert a. induction m as [|b m IH]; intros [|x a] Hlen; simpl in *; try done; try lia.
  unfold count_true in *. cbn [List.filter].
  destruct b; simpl; rewrite IH; (done || lia).
Qed.

Lemma length_flat_effective_roi img roi ignore_nan ignore_inf mask :
  (length (flat (effective_roi img roi ignore_nan ignore_inf mask)) ≤
   length (flat roi))%nat.
Proof.
  unfold effective_roi, np_logical_and.
  destruct ignore_nan, ignore_inf, mask; cbn [flat];
    rewrite ?length_zip_with; lia.
Qed.

(** The count is written whenever the shapes agree, however the call ends. *)
Lemma get_stats_nvoxels stats img var_img roi suffix ignore_nan ignore_inf
    min_nvoxels mask :
  shape img = shape roi → shape var_img = shape roi →
  (∀ m, mask = Some m → shape m = shape roi) →
  (get_stats_ stats img var_img roi suffix ignore_nan ignore_inf min_nvoxels mask).1
    !! ("Nvoxels" +:+ suffix) =
  Some (VInt (Z.of_nat (length
    (bool_index img (effective_roi img roi ignore_nan ignore_inf mask))))).
Proof.
  intros Himg Hvar Hmask.
  destruct (Z.lt_ge_cases
              (Z.of_nat (length (bool_index img
                 (effective_roi img roi ignore_nan ignore_inf mask))))
              min_nvoxels) as [Hlt|Hge].
  - rewrite get_stats_below by done. cbn [fst]. lookup_stat.
  - rewrite get_stats_enough by done.
    destruct (i2 _ _); cbn [fst]; lookup_stat.
Qed.

(** At or above the minimum, a statistic whose function returns holds the
    value the function returned on the sample and its variances. *)
Lemma get_stats_values stats img var_img roi suffix ignore_nan ignore_inf
    min_nvoxels mask stat fn v :
  shape img = shape roi → shape var_img = shape roi →
  (∀ m, mask = Some m → shape m = shape roi) →
  let effective_roi := effective_roi img roi ignore_nan ignore_inf mask in
  let sample := bool_index img effective_roi in
  let sample_var := bool_index var_img effective_roi in
  (min_nvoxels ≤ Z.of_nat (length sample))%Z →
  (stat, fn) ∈ STATS → fn sample sample_var = Ok v →
  (get_stats_ stats img var_img roi suffix ignore_nan ignore_inf min_nvoxels mask).1
    !! (stat +:+ suffix) = Some v.
Proof.
  intros Himg Hvar Hmask eff sd sv Hge Hin Hfn.
  rewrite get_stats_enough by done. fold eff. fold sd. fold sv.
  stat_cases Hin; unfold _addvar in Hfn;
    try (injection Hfn as <-; destruct (i2 sd sv); cbn [fst]; lookup_stat).
  destruct (i2 sd sv); [|done]. injection Hfn as <-. cbn [fst]. lookup_stat.
Qed.

(** C3: when the effective voxel count is below [min_nvoxels] the call
    returns with every registered statistic set to [None]; at or above it,
    every statistic whose function returns holds that function's value on
    [(sample, sample_var)], and the call returns exactly when all of them
    return.  [Nvoxels<suffix>] is written in both cases and is the number of
    voxels of the effective ROI. *)
Theorem get_stats_min_nvoxels stats img var_img roi suffix ignore_nan
    ignore_inf min_nvoxels mask :
  shape img = shape roi → shape var_img = shape roi →
  (∀ m, mask = Some m → shape m = shape roi) →
  well_formed img → well_formed roi →
  let effective_roi := effective_roi img roi ignore_nan ignore_inf mask in
  let sample := bool_index img effective_roi in
  let sample_var := bool_index var_img effective_roi in
  let n := Z.of_nat (length sample) in
  let out :=
    get_stats_ stats img var_img roi suffix ignore_nan ignore_inf min_nvoxels mask in
  n = Z.of_nat (count_true (flat effective_roi)) ∧
  out.1 !! ("Nvoxels" +:+ suffix) = Some (VInt n) ∧
  ((n < min_nvoxels)%Z →
     out.2 = Ok tt ∧
     ∀ stat fn, (stat, fn) ∈ STATS → out.1 !! (stat +:+ suffix) = Some VNone) ∧
  ((min_nvoxels ≤ n)%Z →
     (∀ stat fn v, (stat, fn) ∈ STATS → fn sample sample_var = Ok v →
        out.1 !! (stat +:+ suffix) = Some v) ∧
     (out.2 = Ok tt ↔
        ∀ stat fn, (stat, fn) ∈ STATS → ∃ v, fn sample sample_var = Ok v)).
Proof.
  intros Himg Hvar Hmask Hwi Hwr eff sd sv n out.
  assert (Hcount : n = Z.of_nat (count_true (flat eff))).
  { unfold n, sd, bool_index. rewrite length_select; [done|].
    etrans; [apply length_flat_effective_roi|].
    unfold well_formed in *. rewrite Hwi, Hwr, Himg. done. }
  split; [done|]. split; [by apply get_stats_nvoxels|].
  split.
  - intros Hlt. assert (Hout : out = _) by (by apply get_stats_below).
    rewrite Hout. cbn [fst snd]. split; [done|].
    intros stat fn Hin. stat_cases Hin; lookup_stat.
  - intros Hge. split.
    + intros stat fn v Hin Hfn. by eapply get_stats_values.
    + assert (Hout : out = _) by (by apply get_stats_enough).
      fold eff in Hout. fold sd in Hout. fold sv in Hout.
      rewrite Hout. clear Hout.
      destruct (i2 sd sv) as [z|e] eqn:Hi2; cbn [snd].
      * split; [|done]. intros _ stat fn Hin.
        stat_cases Hin; unfold _addvar; eauto. rewrite Hi2. eauto.
      * split; [done|]. intros Hall.
        destruct (Hall "I2" (λ val var, VInt <$> i2 val var)) as [v Hv].
        { unfold STATS_FNS. rewrite !elem_of_cons. auto 10. }
        by rewrite Hi2 in Hv.
Qed.

(** C8: [get_stats] raises a shape-mismatch error exactly when the shape of
    the value image, of the variance image or of a supplied mask differs
    from the shape of the ROI; the three mismatches raise three different
    errors (the first mismatch in that order decides); and when it raises
    one, the statistics row is as the caller passed it. *)
Theorem get_stats_shape_mismatch stats img var_img roi suffix ignore_nan
    ignore_inf min_nvoxels mask :
  let out :=
    get_stats_ stats img var_img roi suffix ignore_nan ignore_inf min_nvoxels mask in
  (is_shape_error out.2 ↔
     shape img ≠ shape roi ∨ shape var_img ≠ shape roi ∨
     ∃ m, mask = Some m ∧ shape m ≠ shape roi) ∧
  (shape img ≠ shape roi → out = (stats, Raise image_shape_error)) ∧
  (shape img = shape roi → shape var_img ≠ shape roi →
     out = (stats, Raise variance_shape_error)) ∧
  (shape img = shape roi → shape var_img = shape roi →
     (∃ m, mask = Some m ∧ shape m ≠ shape roi) →
     out = (stats, Raise mask_shape_error)) ∧
  (is_shape_error out.2 → out.1 = stats) ∧
  image_shape_error ≠ variance_shape_error ∧
  image_shape_error ≠ mask_shape_error ∧
  variance_shape_error ≠ mask_shape_error.
Proof.
  intros out.
  assert (H1 : shape img ≠ shape roi → out = (stats, Raise image_shape_error)).
  { intros H. unfold out, get_stats. by rewrite bool_decide_eq_true_2. }
  assert (H2 : shape img = shape roi → shape var_img ≠ shape roi →
               out = (stats, Raise variance_shape_error)).
  { intros Hi H. unfold out, get_stats.
    rewrite bool_decide_eq_false_2 by (intros H'; by apply H').
    by rewrite bool_decide_eq_true_2. }
  assert (H3 : shape img = shape roi → shape var_img = shape roi →
               (∃ m, mask = Some m ∧ shape m ≠ shape roi) →
               out = (stats, Raise mask_shape_error)).
  { intros Hi Hv (m & -> & H). unfold out, get_stats.
    rewrite !bool_decide_eq_false_2 by (intros H'; by apply H').
    by rewrite bool_decide_eq_true_2. }
  assert (H4 : shape img = shape roi → shape var_img = shape roi →
               (∀ m, mask = Some m → shape m = shape roi) →
               ¬ is_shape_error out.2).
  { intros Hi Hv Hm. unfold out.
    destruct (Z.lt_ge_cases
                (Z.of_nat (length (bool_index img
                   (effective_roi img roi ignore_nan ignore_inf mask))))
                min_nvoxels) as [Hlt|Hge].
    - rewrite get_stats_below by done. cbn [snd].
      unfold is_shape_error. intros [H|[H|H]]; discriminate.
    - rewrite get_stats_enough by done.
      destruct (i2 _ _) as [z|e] eqn:Hi2; cbn [snd];
        unfold is_shape_error; intros [H|[H|H]]; try discriminate;
        injection H as ->; apply i2_raises in Hi2;
        destruct Hi2 as [?|[?|?]]; discriminate. }
  assert (Hcases : shape img ≠ shape roi ∨ shape img = shape roi ∧
            (shape var_img ≠ shape roi ∨ shape var_img = shape roi ∧
               ((∃ m, mask = Some m ∧ shape m ≠ shape roi) ∨
                (∀ m, mask = Some m → shape m = shape roi)))).
  { destruct (decide (shape img = shape roi)) as [Hi|Hi]; [right|by left].
    split; [done|].
    destruct (decide (shape var_img = shape roi)) as [Hv|Hv]; [right|by left].
    split; [done|]. destruct mask as [m|]; [|by right].
    destruct (decide (shape m = shape roi)) as [Hm|Hm].
    - right. by intros ? [= <-].
    - left. eauto. }
  split; [|split; [done|split; [done|split; [done|split]]]].
  - split.
    + intros Herr.
      destruct Hcases as [?|[Hi [?|[Hv [?|Hm]]]]]; auto.
      by destruct (H4 Hi Hv Hm).
    + intros Hmis.
      destruct Hcases as [Hi|[Hi [Hv|[Hv [Hm|Hm]]]]].
      * rewrite H1 by done. by left.
      * rewrite H2 by done. right. by left.
      * rewrite H3 by done. right. by right.
      * destruct Hmis as [?|[?|(m & Hmask & ?)]]; try done.
        by specialize (Hm m Hmask).
  - intros Herr.
    destruct Hcases as [Hi|[Hi [Hv|[Hv [Hm|Hm]]]]].
    + by rewrite H1.
    + by rewrite H2.
    + by rewrite H3.
    + by destruct (H4 Hi Hv Hm).
  - unfold image_shape_error, variance_shape_error, mask_shape_error.
    repeat split; congruence.
Qed.

Lemma select_lookup_rank {A} (m : list bool) (a : list A) i x :
  m !! i = Some true → a !! i = Some x → select m a !! rank m i = Some x.
Proof.
  revert a i. induction m as [|b m IH]; intros [|y a] [|i] Hm Ha;
    simpl in *; try done.
  - by injection Hm as ->.
  - unfold rank. cbn [take List.filter]. destruct b; simpl; by apply IH.
Qed.

(** A voxel of the ROI and of the extra mask whose value is finite stays in
    the effective ROI. *)
Lemma effective_roi_keeps img roi ignore_nan ignore_inf mask i q :
  flat roi !! i = Some true → flat img !! i = Some (Fin q) →
  (∀ m, mask = Some m → flat m !! i = Some true) →
  flat (effective_roi img roi ignore_nan ignore_inf mask) !! i = Some true.
Proof.
  intros Hroi Himg Hmask. unfold effective_roi, np_logical_and, np_map.
  destruct ignore_nan, ignore_inf, mask as [m|]; cbn [flat shape];
    rewrite ?lookup_zip_with, ?list_lookup_fmap, ?Hroi, ?Himg,
      ?(Hmask m eq_refl); done.
Qed.

(** C10: the NaN/Inf filters look at the value image only.  A voxel of the
    ROI and of the extra mask whose value is finite is in the effective ROI
    whatever its variance [v] is (NaN and the infinities included); it is
    element [j] of the sample, [j] its rank among the selected voxels, and
    counts in [Nvoxels]; element [j] of the variances handed to the
    statistic functions is [v] itself. *)
Theorem variance_is_not_filtered stats img var_img roi suffix ignore_nan
    ignore_inf min_nvoxels mask i q v :
  shape img = shape roi → shape var_img = shape roi →
  (∀ m, mask = Some m → shape m = shape roi) →
  flat roi !! i = Some true →
  (∀ m, mask = Some m → flat m !! i = Some true) →
  flat img !! i = Some (Fin q) →
  flat var_img !! i = Some v →
  let effective_roi := effective_roi img roi ignore_nan ignore_inf mask in
  let sample := bool_index img effective_roi in
  let sample_var := bool_index var_img effective_roi in
  let j := rank (flat effective_roi) i in
  let out :=
    get_stats_ stats img var_img roi suffix ignore_nan ignore_inf min_nvoxels mask in
  flat effective_roi !! i = Some true ∧
  sample !! j = Some (Fin q) ∧
  sample_var !! j = Some v ∧
  out.1 !! ("Nvoxels" +:+ suffix) = Some (VInt (Z.of_nat (length sample))) ∧
  (j < length sample)%nat ∧
  ((min_nvoxels ≤ Z.of_nat (length sample))%Z →
   ∀ stat fn r, (stat, fn) ∈ STATS → fn sample sample_var = Ok r →
     out.1 !! (stat +:+ suffix) = Some r).
Proof.
  intros Hsi Hsv Hsm Hroi Hmask Himg Hvar eff sd sv j out.
  assert (Heff : flat eff !! i = Some true) by (by eapply effective_roi_keeps).
  assert (Hj : sd !! j = Some (Fin q)) by (by apply select_lookup_rank).
  split; [done|]. split; [done|].
  split; [by apply select_lookup_rank|].
  split; [by apply get_stats_nvoxels|].
  split; [by eapply lookup_lt_Some|].
  intros Hge stat fn r Hin Hfn. by eapply get_stats_values.
Qed.

End extractor_properties.

(** ** The cross-space ROI registrar *)

Lemma np_gt_binarizes a t : binarizes (np_gt a t) a t.
Proof.
  unfold binarizes, np_gt, np_map. cbn [shape flat].
  split; [done|]. split; [by rewrite length_fmap|].
  intros i x Hx. exists (ngt x t). rewrite list_lookup_fmap, Hx.
  split; [done|]. apply ngt_num_gt.
Qed.

Lemma for_each_append {A} (l : list A) (g : A → roi_record) rois :
  for_each l (λ x, append (g x)) rois = (rois ++ (g <$> l), Ok tt).
Proof.
  revert rois. induction l as [|x l IH]; intros rois.
  - cbn. by rewrite app_nil_r.
  - cbn [for_each]. unfold st_bind, append at 1, st_modify.
    rewrite IH. cbn [fmap list_fmap]. by rewrite <-app_assoc.
Qed.

Section registrar_properties.

Variable applywarp : Image → Image → applywarp_kwargs → Image.
Variable Atlas : Type.
Variable getAtlasDescription : string → atlas_description.
Variable loadAtlas : string → Z → Atlas.
Variable atlas_get : Atlas → atlas_label → Image.

Local Abbreviation add_struct_roi_ := (add_struct_roi applywarp).
Local Abbreviation add_mni_roi_ := (add_mni_roi applywarp).
Local Abbreviation add_rois_from_atlas_ :=
  (add_rois_from_atlas applywarp Atlas getAtlasDescription loadAtlas atlas_get).

Lemma add_struct_roi_run roi name ref struct2asl threshold rois :
  add_struct_roi_ roi name ref struct2asl threshold rois =
  let roi_native := applywarp roi ref (struct_kwargs struct2asl) in
  (rois ++ [mk_roi name (Some roi) None (Some roi_native)
              (MaskBool (np_gt (data roi_native)
                           (default threshold_default threshold)))],
   Ok tt).
Proof. reflexivity. Qed.

Lemma add_mni_roi_run roi name mni2struc ref struct2asl threshold rois :
  add_mni_roi_ roi name mni2struc ref struct2asl threshold rois =
  let roi_native := applywarp roi ref (mni_kwargs mni2struc struct2asl) in
  (rois ++ [mk_roi name None (Some roi) (Some roi_native)
              (MaskBool (np_gt (data roi_native)
                           (default threshold_default threshold)))],
   Ok tt).
Proof. reflexivity. Qed.

Lemma add_rois_from_atlas_run mni2struc_warp ref_img struct2asl_mat atlas_name
    resolution threshold rois :
  add_rois_from_atlas_ mni2struc_warp ref_img struct2asl_mat atlas_name
    resolution threshold rois =
  let desc := getAtlasDescription atlas_name in
  let atlas := loadAtlas (atlasID desc) 2 in
  (rois ++
     ((λ label,
        let roi := atlas_get atlas label in
        let roi_native :=
          applywarp roi ref_img (mni_kwargs mni2struc_warp struct2asl_mat) in
        mk_roi (label_name label) None (Some roi) (Some roi_native)
          (MaskBool (np_gt (data roi_native) (num_of_Z 50))))
      <$> labels desc),
   Ok tt).
Proof.
  unfold add_rois_from_atlas. cbv zeta.
  rewrite <-(for_each_append (labels _)). reflexivity.
Qed.

(** C5 (amended): for every label of the named atlas, in order,
    [add_rois_from_atlas] fetches the label's map and adds it with
    [add_mni_roi] at the threshold 50, a constant of the operation: the mask
    of each label is its transformed map binarized at 50, whatever
    [resolution] and [threshold] the caller passes.  The scale is the
    percentage one, 50 being 100 times the 0.5 that the other operations
    default to. *)
Theorem atlas_rois_binarized_at_50 mni2struc_warp ref_img struct2asl_mat
    atlas_name resolution threshold rois :
  let desc := getAtlasDescription atlas_name in
  let atlas := loadAtlas (atlasID desc) 2 in
  let added := (add_rois_from_atlas_ mni2struc_warp ref_img struct2asl_mat
                  atlas_name resolution threshold rois).1 in
  add_rois_from_atlas_ mni2struc_warp ref_img struct2asl_mat atlas_name
    resolution threshold rois =
  for_each (labels desc) (λ label,
    add_mni_roi_ (atlas_get atlas label) (label_name label) mni2struc_warp
      ref_img struct2asl_mat (Some (num_of_Z 50))) rois ∧
  (add_rois_from_atlas_ mni2struc_warp ref_img struct2asl_mat atlas_name
     resolution threshold rois).2 = Ok tt ∧
  length added = (length rois + length (labels desc))%nat ∧
  (∀ k label, labels desc !! k = Some label →
     ∃ r m,
       added !! (length rois + k)%nat = Some r ∧
       name r = label_name label ∧
       roi_mni r = Some (atlas_get atlas label) ∧
       roi_native r = Some (applywarp (atlas_get atlas label) ref_img
                              (mni_kwargs mni2struc_warp struct2asl_mat)) ∧
       mask_native r = MaskBool m ∧
       binarizes m (data (applywarp (atlas_get atlas label) ref_img
                            (mni_kwargs mni2struc_warp struct2asl_mat)))
         (num_of_Z 50)) ∧
  num_of_Z 50 = nmul (num_of_Z 100) threshold_default ∧
  default threshold_default None = num_of_Q (5 # 10).
Proof.
  intros desc atlas added.
  split; [reflexivity|].
  unfold added. rewrite add_rois_from_atlas_run. cbv zeta. cbn [fst snd].
  fold desc. fold atlas.
  split; [done|]. split; [by rewrite length_app, length_fmap|].
  split; [|split; [by apply num_eqb_eq | done]].
  intros k label Hk.
  eexists _, _. rewrite lookup_app_r by lia.
  replace (length rois + k - length rois)%nat with k by lia.
  rewrite list_lookup_fmap, Hk. cbn [fmap option_fmap option_map].
  split; [reflexivity|]. cbn [name roi_mni roi_native mask_native].
  repeat (split; [reflexivity|]). apply np_gt_binarizes.
Qed.

(** C6: the mask that [add_struct_roi] and [add_mni_roi] record is the
    transformed image binarized at [threshold] (0.5 when left out): on the
    whole grid of the transformed image, a voxel is true exactly when its
    intensity is strictly above the threshold. *)
Theorem struct_and_mni_masks_binarized roi name mni2struc ref struct2asl
    threshold rois :
  let t := default (num_of_Q (5 # 10)) threshold in
  let native_s := applywarp roi ref (struct_kwargs struct2asl) in
  let native_m := applywarp roi ref (mni_kwargs mni2struc struct2asl) in
  (∃ m, add_struct_roi_ roi name ref struct2asl threshold rois =
          (rois ++ [mk_roi name (Some roi) None (Some native_s) (MaskBool m)],
           Ok tt) ∧
        binarizes m (data native_s) t ∧
        ∀ i, flat m !! i = Some true →
          ∃ x, flat (data native_s) !! i = Some x ∧ num_gt x t) ∧
  (∃ m, add_mni_roi_ roi name mni2struc ref struct2asl threshold rois =
          (rois ++ [mk_roi name None (Some roi) (Some native_m) (MaskBool m)],
           Ok tt) ∧
        binarizes m (data native_m) t ∧
        ∀ i, flat m !! i = Some true →
          ∃ x, flat (data native_m) !! i = Some x ∧ num_gt x t).
Proof.
  intros t native_s native_m.
  assert (Htrue : ∀ a i, flat (np_gt a t) !! i = Some true →
                    ∃ x, flat a !! i = Some x ∧ num_gt x t).
  { intros a i. unfold np_gt, np_map. cbn [flat]. rewrite list_lookup_fmap.
    destruct (flat a !! i) as [x|]; [|done]. cbn. intros [= H].
    exists x. split; [done|]. by apply ngt_num_gt. }
  split.
  - eexists. rewrite add_struct_roi_run. cbv zeta.
    split; [reflexivity|]. split; [apply np_gt_binarizes | apply Htrue].
  - eexists. rewrite add_mni_roi_run. cbv zeta.
    split; [reflexivity|]. split; [apply np_gt_binarizes | apply Htrue].
Qed.

(** C7 (amended): when the transform collaborator returns its image on the
    reference grid, every record that [add_struct_roi], [add_mni_roi] and
    [add_rois_from_atlas] append has a boolean [mask_native] on the grid of
    the reference image, the earlier records staying as they were;
    [add_native_roi] records the data of the image it is given, unchanged. *)
Theorem transformed_masks_on_reference_grid roi name mni2struc ref struct2asl
    threshold atlas_name resolution rois :
  (∀ img ref kwargs,
     shape (data (applywarp img ref kwargs)) = shape (data ref)) →
  (∃ r, add_struct_roi_ roi name ref struct2asl threshold rois =
          (rois ++ [r], Ok tt) ∧ mask_on_grid (shape (data ref)) r) ∧
  (∃ r, add_mni_roi_ roi name mni2struc ref struct2asl threshold rois =
          (rois ++ [r], Ok tt) ∧ mask_on_grid (shape (data ref)) r) ∧
  (∃ rs, add_rois_from_atlas_ mni2struc ref struct2asl atlas_name resolution
           threshold rois = (rois ++ rs, Ok tt) ∧
         Forall (mask_on_grid (shape (data ref))) rs) ∧
  add_native_roi roi name rois =
    (rois ++ [mk_roi name None None None (MaskNum (data roi))], Ok tt).
Proof.
  intros Hgrid.
  assert (Hon : ∀ a kw t nm r1 r2 r3,
            mask_on_grid (shape (data ref))
              (mk_roi nm r1 r2 r3 (MaskBool (np_gt (data (applywarp a ref kw)) t)))).
  { intros. eexists. split; [reflexivity|]. cbn [shape np_gt np_map]. apply Hgrid. }
  split; [|split; [|split]].
  - eexists. rewrite add_struct_roi_run. cbv zeta. split; [reflexivity|]. apply Hon.
  - eexists. rewrite add_mni_roi_run. cbv zeta. split; [reflexivity|]. apply Hon.
  - eexists. rewrite add_rois_from_atlas_run. cbv zeta. split; [reflexivity|].
    apply Forall_fmap, Forall_forall. intros label _. apply Hon.
  - reflexivity.
Qed.

End registrar_properties.

(** ** The perfusion-dataset selector *)

Section selector_properties.

Variable Image_load : string → Image.
Variable os_path_isdir : string → bool.

(** C4: [get_perfusion_data] returns three datasets on both branches.  With
    a [pvcorr] subdirectory the suffixes are [""], [" GM"], [" WM"], the GM
    and WM entries read the images under [pvcorr] and are masked where the
    PVE is above 0.1; without it the three entries read the one
    [perfusion_calib]/[perfusion_var_calib] pair, are masked where the PVE
    is above 0.8, and carry [""], [" 80%+GM"], [" 80%+WM"], the 80 being
    [int(0.8*100)] printed in decimal.  The first entry has no mask. *)
Theorem get_perfusion_data_three_datasets outdir gm_pve_asl wm_pve_asl :
  let f := Image_load (os_path_join outdir ["perfusion_calib"]) in
  let var := Image_load (os_path_join outdir ["perfusion_var_calib"]) in
  let pvc name := Image_load (os_path_join outdir ["pvcorr"; name]) in
  get_perfusion_data Image_load os_path_isdir outdir gm_pve_asl wm_pve_asl =
  Ok (if os_path_isdir (os_path_join outdir ["pvcorr"])
      then [ mk_perfusion "" f var None;
             mk_perfusion " GM" (pvc "perfusion_calib") (pvc "perfusion_var_calib")
               (Some (np_gt (data gm_pve_asl) (num_of_Q (1 # 10))));
             mk_perfusion " WM" (pvc "perfusion_wm_calib")
               (pvc "perfusion_wm_var_calib")
               (Some (np_gt (data wm_pve_asl) (num_of_Q (1 # 10)))) ]
      else [ mk_perfusion "" f var None;
             mk_perfusion " 80%+GM" f var
               (Some (np_gt (data gm_pve_asl) (num_of_Q (8 # 10))));
             mk_perfusion " 80%+WM" f var
               (Some (np_gt (data wm_pve_asl) (num_of_Q (8 # 10)))) ]) ∧
  format_i (py_mul (PyFloat PVE_THRESHOLD_NOPVC) (PyInt 100)) = Ok "80" ∧
  (∀ a t, binarizes (np_gt a t) a t).
Proof.
  intros f var pvc.
  assert (Hfmt : format_i (py_mul (PyFloat PVE_THRESHOLD_NOPVC) (PyInt 100)) = Ok "80")
    by (by vm_compute).
  split; [|split; [done | apply np_gt_binarizes]].
  unfold get_perfusion_data. rewrite Hfmt.
  by destruct (os_path_isdir _).
Qed.

End selector_properties.

(** ** The claims about the statistic functions *)

(** C1 (the code departs from it): on the sample [1, 2] with variances
    [1, 1] the weights are 1, [mu] is 3/2, [Q] is 1/2 and
    [100*(Q-(n-1))/Q] is exactly -100, which rounds half-up to -100;
    [i2] returns -99. *)
Theorem i2_of_minus_100_percent :
  I2_weights (floats [1; 1]) = floats [1; 1] ∧
  I2_mu (floats [1; 2]) (floats [1; 1]) = num_of_Q (3 # 2) ∧
  I2_Q (floats [1; 2]) (floats [1; 1]) = num_of_Q (1 # 2) ∧
  I2_percent (floats [1; 2]) (floats [1; 1]) = num_of_Z (-100) ∧
  I2_rounded (floats [1; 2]) (floats [1; 1]) = Some (-100)%Z ∧
  i2 (floats [1; 2]) (floats [1; 1]) = Ok (-99)%Z.
Proof.
  repeat split; try (by apply num_eqb_eq); try (by vm_compute).
  by apply list_num_eqb_eq.
Qed.

(** C2 (as stated, refuted): an infinite value at a zero variance is not
    left out of the numerator: its product with the zeroed precision is
    NaN, and so is the result, where the mean over the elements of finite
    precision is 1. *)
Lemma infinite_value_with_zero_variance :
  mean_invvarweighted [PInf; num_of_Z 1] (floats [0; 1]) = NaN ∧
  pwm_finite_precision [PInf; num_of_Z 1] (floats [0; 1]) = num_of_Z 1 ∧
  mean_invvarweighted [PInf; num_of_Z 1] (floats [0; 1]) ≠
    pwm_finite_precision [PInf; num_of_Z 1] (floats [0; 1]).
Proof.
  assert (H1 : mean_invvarweighted [PInf; num_of_Z 1] (floats [0; 1]) = NaN)
    by (by vm_compute).
  assert (H2 : pwm_finite_precision [PInf; num_of_Z 1] (floats [0; 1]) = num_of_Z 1)
    by (by apply num_eqb_eq).
  split; [done|]. split; [done|]. by rewrite H1, H2.
Qed.

(** C2 (amended): the precision of an element is [1/var]; a non-finite
    precision is replaced by zero; the result is
    [sum(val*prec)/sum(prec)]; and when the values at the replaced
    precisions are finite, those elements enter neither sum: the result is
    the weighted mean over the elements of finite precision alone. *)
Theorem mean_invvarweighted_finite_precisions val var :
  Forall2 (λ x v, isfinite (precision v) = false → isfinite x = true) val var →
  let prec :=
    (λ v, if isfinite (precision v) then precision v else Fin 0%Qc) <$> var in
  mean_invvarweighted val var = ndiv (np_sum (zip_with nmul val prec)) (np_sum prec) ∧
  mean_invvarweighted val var = pwm_finite_precision val var.
Proof.
  intros H prec. split; [apply mean_invvarweighted_unfold|].
  rewrite mean_invvarweighted_unfold. cbv zeta.
  unfold pwm_finite_precision, np_sum. cbv zeta.
  destruct (fold_sums_finite_precision val var (Fin 0%Qc) (Fin 0%Qc) H) as [-> ->].
  done.
Qed.

Lemma mean_invvarweighted_finite_precisions_witness :
  Forall2 (λ x v, isfinite (precision v) = false → isfinite x = true)
    (floats [3; 1; 4]) [num_of_Z 0; num_of_Z 1; NaN] ∧
  mean_invvarweighted (floats [3; 1; 4]) [num_of_Z 0; num_of_Z 1; NaN] =
    pwm_finite_precision (floats [3; 1; 4]) [num_of_Z 0; num_of_Z 1; NaN] ∧
  pwm_finite_precision (floats [3; 1; 4]) [num_of_Z 0; num_of_Z 1; NaN] = num_of_Z 1.
Proof.
  assert (H : Forall2 (λ x v, isfinite (precision v) = false → isfinite x = true)
                (floats [3; 1; 4]) [num_of_Z 0; num_of_Z 1; NaN]).
  { repeat constructor. }
  split; [exact H|]. split.
  - exact (proj2 (mean_invvarweighted_finite_precisions _ _ H)).
  - apply num_eqb_eq. vm_compute. reflexivity.
Defined.

(** C9: with every variance equal to 1.0 the statistic registered as
    [Precision-weighted mean] returns what the one registered as [Mean]
    returns (this holds for every sample, the non-empty finite ones
    included). *)
Theorem unit_variance_weighted_mean_is_mean np_std np_median scipy_iqr
    val var fmean fpwm :
  length var = length val →
  Forall (λ v, v = Fin 1%Qc) var →
  ("Mean", fmean) ∈ STATS_FNS np_std np_median scipy_iqr →
  ("Precision-weighted mean", fpwm) ∈ STATS_FNS np_std np_median scipy_iqr →
  fpwm val var = fmean val var ∧
  mean_invvarweighted val var = np_mean val.
Proof.
  intros Hlen Hvar Hm Hp.
  unfold STATS_FNS in Hm, Hp. rewrite !elem_of_cons, elem_of_nil in Hm, Hp.
  destruct Hm as [Hm|[Hm|[Hm|[Hm|[Hm|[Hm|[]]]]]]]; try discriminate Hm.
  destruct Hp as [Hp|[Hp|[Hp|[Hp|[Hp|[Hp|[]]]]]]]; try discriminate Hp.
  injection Hm as ->. injection Hp as ->. unfold _addvar.
  by rewrite mean_invvarweighted_units.
Qed.

Lemma unit_variance_weighted_mean_is_mean_witness :
  length (floats [1; 1; 1]) = length (floats [1; 2; 5]) ∧
  Forall (λ v, v = Fin 1%Qc) (floats [1; 1; 1]) ∧
  mean_invvarweighted (floats [1; 2; 5]) (floats [1; 1; 1]) =
    np_mean (floats [1; 2; 5]) ∧
  np_mean (floats [1; 2; 5]) = num_of_Q (8 # 3).
Proof.
  assert (Hvar : Forall (λ v, v = Fin 1%Qc) (floats [1; 1; 1])).
  { repeat constructor; apply num_of_Z_1. }
  split; [reflexivity|]. split; [exact Hvar|]. split.
  - refine (proj2 (unit_variance_weighted_mean_is_mean np_mean np_mean np_mean
                     (floats [1; 2; 5]) (floats [1; 1; 1])
                     (_addvar (λ a, Ok (VFloat (np_mean a))))
                     (λ val var, Ok (VFloat (mean_invvarweighted val var)))
                     eq_refl Hvar _ _)); repeat constructor.
  - apply num_eqb_eq. vm_compute. reflexivity.
Defined.

(** ** The claims about the extractor, on the sample grid *)

Lemma get_stats_min_nvoxels_witness :
  let out := get_stats np_mean np_mean np_mean ∅ img_sample unit_var_sample
               roi_sample " GM" true true 2 None in
  (shape img_sample = shape roi_sample ∧
   shape unit_var_sample = shape roi_sample ∧
   well_formed img_sample ∧ well_formed roi_sample) ∧
  out.1 !! "Nvoxels GM" = Some (VInt 3) ∧
  out.1 !! "I2 GM" = Some (VInt 77) ∧
  out.2 = Ok tt.
Proof.
  intros out.
  assert (H1 : shape img_sample = shape roi_sample) by reflexivity.
  assert (H2 : shape unit_var_sample = shape roi_sample) by reflexivity.
  assert (H3 : ∀ m, @None (ndarray bool) = Some m → shape m = shape roi_sample)
    by (intros m Hm; discriminate Hm).
  assert (H4 : well_formed img_sample) by reflexivity.
  assert (H5 : well_formed roi_sample) by reflexivity.
  split; [by repeat split|].
  pose proof (get_stats_min_nvoxels np_mean np_mean np_mean ∅ img_sample
                unit_var_sample roi_sample " GM" true true 2 None
                H1 H2 H3 H4 H5) as H.
  cbv zeta in H. destruct H as (_ & Hn & _ & Hge).
  assert (Hmin : (2 ≤ Z.of_nat (length (bool_index img_sample
                    (effective_roi img_sample roi_sample true true None))))%Z)
    by (vm_compute; discriminate).
  destruct (Hge Hmin) as [Hvalues Hreturns].
  split; [exact Hn|]. split.
  - apply (Hvalues "I2" (λ val var, VInt <$> i2 val var) (VInt 77)).
    + repeat constructor.
    + vm_compute. reflexivity.
  - apply Hreturns. intros stat fn Hin.
    stat_cases Hin; unfold _addvar; [eexists; reflexivity ..|].
    exists (VInt 77). vm_compute. reflexivity.
Defined.

Lemma variance_is_not_filtered_witness :
  let effective_roi := effective_roi img_sample roi_sample true true None in
  let out := get_stats np_mean np_mean np_mean ∅ img_sample var_sample
               roi_sample "" true true 10 None in
  (shape img_sample = shape roi_sample ∧
   shape var_sample = shape roi_sample ∧
   flat roi_sample !! 1%nat = Some true ∧
   flat img_sample !! 1%nat = Some (num_of_Z 2) ∧
   flat var_sample !! 1%nat = Some NaN) ∧
  bool_index var_sample effective_roi !! 1%nat = Some NaN ∧
  out.1 !! "Nvoxels" = Some (VInt 3).
Proof.
  intros eff out.
  assert (H3 : ∀ m, @None (ndarray bool) = Some m → shape m = shape roi_sample)
    by (intros m Hm; discriminate Hm).
  assert (H4 : ∀ m, @None (ndarray bool) = Some m → flat m !! 1%nat = Some true)
    by (intros m Hm; discriminate Hm).
  split; [by repeat split|].
  destruct (variance_is_not_filtered np_mean np_mean np_mean ∅ img_sample
              var_sample roi_sample "" true true 10 None 1 (Qc_of_Z 2) NaN
              eq_refl eq_refl H3 eq_refl H4 eq_refl eq_refl)
    as (_ & _ & Hvar & Hn & _).
  split; [exact Hvar | exact Hn].
Defined.

(** ** The claims about the registrar, on the sample grid *)

(** C7 (as stated, refuted): the record [add_native_roi] appends for an
    image of one voxel holds that image's numeric data, not a boolean array
    on the 2x2x1 grid of the reference. *)
Lemma native_roi_mask_is_image_data :
  let rois := (add_native_roi native_roi_sample "lesion" []).1 in
  rois = [mk_roi "lesion" None None None
            (MaskNum (mk_ndarray [1; 1; 1]%nat (floats [2])))] ∧
  shape (data reference_sample) = [2; 2; 1]%nat ∧
  ¬ Forall (mask_on_grid (shape (data reference_sample))) rois.
Proof.
  intros rois. split; [reflexivity|]. split; [reflexivity|].
  intros H. apply Forall_cons in H as [(m & Hm & _) _]. discriminate Hm.
Qed.

Lemma transformed_masks_on_reference_grid_witness :
  (∀ img ref kwargs,
     shape (data (resample_sample img ref kwargs)) = shape (data ref)) ∧
  ∃ rs,
    add_rois_from_atlas resample_sample unit atlas_description_sample
      (λ _ _, tt) atlas_get_sample reference_sample reference_sample []
      "harvardoxford-cortical" None (Some (num_of_Q (5 # 10))) [] = (rs, Ok tt) ∧
    length rs = 2%nat ∧
    Forall (mask_on_grid grid_sample) rs.
Proof.
  assert (H : ∀ img ref kwargs,
            shape (data (resample_sample img ref kwargs)) = shape (data ref))
    by (intros; reflexivity).
  split; [exact H|].
  destruct (transformed_masks_on_reference_grid resample_sample unit
              atlas_description_sample (λ _ _, tt) atlas_get_sample
              reference_sample "roi" reference_sample reference_sample []
              None "harvardoxford-cortical" None [] H)
    as (_ & _ & (rs & Hrun & Hall) & _).
  exists rs. split; [exact Hrun|]. split; [|exact Hall].
  rewrite add_rois_from_atlas_run in Hrun. by injection Hrun as <-.
Defined.

(** C5 (as stated, refuted): the threshold of [add_rois_from_atlas] is not
    what reaches [add_mni_roi].  Its default is 0.5, not 50.  Called with
    30 on the two-label atlas, whose maps hold the probabilities 80, 50 and
    20, the operation records the masks of a threshold of 50 (the voxel at
    80 alone), where [add_mni_roi] with the 30 of the caller keeps the
    voxel at 50 too; left at its default it records the same masks of 50,
    where the default 0.5 would keep every voxel above one half. *)
Lemma atlas_threshold_argument_is_not_passed :
  default threshold_default None = num_of_Q (5 # 10) ∧
  mask_native <$>
    (add_rois_from_atlas resample_sample unit atlas_description_sample
       (λ _ _, tt) atlas_get_sample reference_sample reference_sample []
       "harvardoxford-cortical" None (Some (num_of_Z 30)) []).1 =
    [ MaskBool (mk_ndarray grid_sample [false; true; false; false]);
      MaskBool (mk_ndarray grid_sample [false; true; false; false]) ] ∧
  mask_native <$>
    (for_each (labels (atlas_description_sample "harvardoxford-cortical"))
       (λ label,
          add_mni_roi resample_sample (atlas_get_sample tt label)
            (label_name label) reference_sample reference_sample []
            (Some (num_of_Z 30))) []).1 =
    [ MaskBool (mk_ndarray grid_sample [false; true; true; false]);
      MaskBool (mk_ndarray grid_sample [false; true; true; false]) ] ∧
  mask_native <$>
    (add_rois_from_atlas resample_sample unit atlas_description_sample
       (λ _ _, tt) atlas_get_sample reference_sample reference_sample []
       "harvardoxford-cortical" None None []).1 =
    [ MaskBool (mk_ndarray grid_sample [false; true; false; false]);
      MaskBool (mk_ndarray grid_sample [false; true; false; false]) ] ∧
  mask_native <$>
    (for_each (labels (atlas_description_sample "harvardoxford-cortical"))
       (λ label,
          add_mni_roi resample_sample (atlas_get_sample tt label)
            (label_name label) reference_sample reference_sample []
            (Some (default threshold_default None))) []).1 =
    [ MaskBool (mk_ndarray grid_sample [false; true; true; true]);
      MaskBool (mk_ndarray grid_sample [true; true; true; true]) ] ∧
  add_rois_from_atlas resample_sample unit atlas_description_sample
    (λ _ _, tt) atlas_get_sample reference_sample reference_sample []
    "harvardoxford-cortical" None (Some (num_of_Z 30)) [] ≠
  for_each (labels (atlas_description_sample "harvardoxford-cortical"))
    (λ label,
       add_mni_roi resample_sample (atlas_get_sample tt label)
         (label_name label) reference_sample reference_sample []
         (Some (num_of_Z 30))) [].
Proof.
  split; [reflexivity|].
  split; [by vm_compute|]. split; [by vm_compute|].
  split; [by vm_compute|]. split; [by vm_compute|].
  intros H. apply (f_equal (λ out, mask_native <$> out.1)) in H.
  vm_compute in H. discriminate H.
Qed.

(** The atlas step of [main] passes [threshold=0.5]; the masks of both
    atlases are binarized at 50 all the same. *)
Lemma main_add_atlas_rois_at_50 applywarp Atlas getAtlasDescription loadAtlas
    atlas_get mni2struc_warp asl_ref struct2asl_mat rois :
  let out := main_add_atlas_rois applywarp Atlas getAtlasDescription loadAtlas
               atlas_get true mni2struc_warp asl_ref struct2asl_mat rois in
  out.2 = Ok tt ∧
  ∃ added, out.1 = rois ++ added ∧
    Forall (λ r, ∃ native, roi_native r = Some native ∧
                   mask_native r = MaskBool (np_gt (data native) (num_of_Z 50)))
      added.
Proof.
  intros out. unfold out, main_add_atlas_rois, st_bind.
  rewrite add_rois_from_atlas_run. cbv beta iota zeta.
  rewrite add_rois_from_atlas_run. cbv beta iota zeta. cbn [fst snd].
  split; [done|]. eexists. rewrite <-app_assoc. split; [reflexivity|].
  apply Forall_app. split; apply Forall_fmap, Forall_forall;
    intros label _; eexists; split; reflexivity.
Qed.

(** A NaN variance inside the sample reaches [i2], whose [int()] then
    raises: the call ends with that exception after the count and the five
    float statistics were written. *)
Lemma get_stats_raises_after_writing :
  let out := get_stats np_mean np_mean np_mean ∅ img_sample var_sample
               roi_sample "" true true 2 None in
  out.2 = Raise (ValueError "cannot convert float NaN to integer") ∧
  out.1 !! "Nvoxels" = Some (VInt 3) ∧
  out.1 !! "Precision-weighted mean" = Some (VFloat (num_of_Z 3)) ∧
  out.1 !! "I2" = None.
Proof.
  intros out.
  assert (Hout : out = _) by (by apply get_stats_enough).
  cbv zeta in Hout.
  assert (Hi2 : i2 (bool_index img_sample (effective_roi img_sample roi_sample true true None))
                   (bool_index var_sample (effective_roi img_sample roi_sample true true None))
                = Raise (ValueError "cannot convert float NaN to integer"))
    by (by vm_compute).
  rewrite Hi2 in Hout. rewrite Hout. cbn [fst snd].
  split; [done|]. split; [lookup_stat|]. split; [|lookup_stat; apply lookup_empty].
  lookup_stat. do 2 f_equal. apply num_eqb_eq. by vm_compute.
Qed.

(* ================================================================== *)
(** * Further properties of the extractor *)

Lemma andb_true_both a b : a && b = true → a = true ∧ b = true.
Proof. by destruct a, b. Qed.

Lemma lookup_zip_andb_true (r k : list bool) i :
  zip_with andb r k !! i = Some true ↔ r !! i = Some true ∧ k !! i = Some true.
Proof.
  rewrite lookup_zip_with_Some. split.
  - intros (x & y & [-> ->]%eq_sym%andb_true_both & Hx & Hy). done.
  - intros [Hx Hy]. by exists true, true.
Qed.

Lemma logical_and_not_nan_true e img i :
  flat (np_logical_and e (np_map negb (np_map isnan img))) !! i = Some true →
  flat e !! i = Some true ∧ ∃ x, flat img !! i = Some x ∧ isnan x = false.
Proof.
  unfold np_logical_and, np_map. cbn [flat].
  rewrite lookup_zip_andb_true, !list_lookup_fmap. intros [He Hx].
  split; [done|]. destruct (flat img !! i) as [x|]; [|done].
  exists x. split; [done|]. cbn in Hx. injection Hx as Hx. by apply negb_true_iff.
Qed.

Lemma logical_and_finite_true e img i :
  flat (np_logical_and e (np_map isfinite img)) !! i = Some true →
  flat e !! i = Some true ∧ ∃ x, flat img !! i = Some x ∧ isfinite x = true.
Proof.
  unfold np_logical_and, np_map. cbn [flat].
  rewrite lookup_zip_andb_true, list_lookup_fmap. intros [He Hx].
  split; [done|]. destruct (flat img !! i) as [x|]; [|done].
  exists x. split; [done|]. cbn in Hx. by injection Hx.
Qed.

Lemma logical_and_mask_true e (m : ndarray bool) i :
  flat (np_logical_and e m) !! i = Some true →
  flat e !! i = Some true ∧ flat m !! i = Some true.
Proof. unfold np_logical_and. cbn [flat]. by rewrite lookup_zip_andb_true. Qed.

(** What a true voxel of the effective ROI says about the inputs. *)
Lemma effective_roi_true img roi ignore_nan ignore_inf mask i :
  flat (effective_roi img roi ignore_nan ignore_inf mask) !! i = Some true →
  flat roi !! i = Some true ∧
  (∀ m, mask = Some m → flat m !! i = Some true) ∧
  (ignore_nan = true → ∃ x, flat img !! i = Some x ∧ isnan x = false) ∧
  (ignore_inf = true → ∃ x, flat img !! i = Some x ∧ isfinite x = true).
Proof.
  unfold effective_roi. intros H.
  assert (Hmask : ∃ e, flat e !! i = Some true ∧
            (∀ m, mask = Some m → flat m !! i = Some true) ∧
            e = (let e0 := roi in
                 let e1 := if ignore_nan
                           then np_logical_and e0 (np_map negb (np_map isnan img))
                           else e0 in
                 if ignore_inf then np_logical_and e1 (np_map isfinite img) else e1)).
  { destruct mask as [m|].
    - apply logical_and_mask_true in H as [He Hm].
      eexists. split; [exact He|]. split; [|reflexivity]. by intros ? [= <-].
    - eexists. split; [exact H|]. split; [done | reflexivity]. }
  destruct Hmask as (e & He & Hm & ->). cbv zeta in He.
  assert (Hinf : (ignore_inf = true → ∃ x, flat img !! i = Some x ∧ isfinite x = true) ∧
            flat (if ignore_nan
                  then np_logical_and roi (np_map negb (np_map isnan img))
                  else roi) !! i = Some true).
  { destruct ignore_inf.
    - apply logical_and_finite_true in He as [He Hx]. done.
    - done. }
  destruct Hinf as [Hinf He1].
  assert (Hnan : (ignore_nan = true → ∃ x, flat img !! i = Some x ∧ isnan x = false) ∧
            flat roi !! i = Some true).
  { destruct ignore_nan.
    - apply logical_and_not_nan_true in He1 as [He1 Hx]. done.
    - done. }
  destruct Hnan as [Hnan Hroi]. done.
Qed.

Lemma Forall_select {A} (P : A → Prop) (m : list bool) (a : list A) :
  (∀ i x, m !! i = Some true → a !! i = Some x → P x) → Forall P (select m a).
Proof.
  revert a. induction m as [|b m IH]; intros [|y a] H; simpl; try constructor.
  assert (Htl : Forall P (select m a)).
  { apply IH. intros i x Hm Ha. by apply (H (S i)). }
  destruct b; [|done]. constructor; [|done]. by apply (H 0%nat).
Qed.

Lemma length_select_le {A} (m : list bool) (a : list A) :
  (length (select m a) ≤ count_true m)%nat.
Proof.
  revert a. unfold count_true.
  induction m as [|b m IH]; intros [|y a]; simpl; try lia.
  specialize (IH a). destruct b; simpl; lia.
Qed.

Lemma count_true_zip_andb (r k : list bool) :
  (count_true (zip_with andb r k) ≤ count_true r)%nat.
Proof.
  revert k. unfold count_true.
  induction r as [|b r IH]; intros [|c k]; simpl; try lia.
  specialize (IH k). destruct b, c; simpl; lia.
Qed.

Lemma count_true_effective_roi img roi ignore_nan ignore_inf mask :
  (count_true (flat (effective_roi img roi ignore_nan ignore_inf mask)) ≤
   count_true (flat roi))%nat.
Proof.
  unfold effective_roi, np_logical_and.
  destruct ignore_nan, ignore_inf, mask; cbn [flat];
    repeat (etrans; [apply count_true_zip_andb|]); done.
Qed.

(** X1: the effective ROI never widens the region.  It has the shape of
    the ROI, and each of its true voxels is a true voxel of the ROI and of
    the extra mask when there is one, with a value that is not NaN under
    [ignore_nan] and finite under [ignore_inf]. *)
Theorem effective_roi_within_roi img roi ignore_nan ignore_inf mask i :
  flat (effective_roi img roi ignore_nan ignore_inf mask) !! i = Some true →
  shape (effective_roi img roi ignore_nan ignore_inf mask) = shape roi ∧
  flat roi !! i = Some true ∧
  (∀ m, mask = Some m → flat m !! i = Some true) ∧
  (ignore_nan = true → ∃ x, flat img !! i = Some x ∧ isnan x = false) ∧
  (ignore_inf = true → ∃ x, flat img !! i = Some x ∧ isfinite x = true).
Proof.
  intros H. split; [|by apply effective_roi_true].
  unfold effective_roi, np_logical_and. by destruct ignore_nan, ignore_inf, mask.
Qed.

Lemma effective_roi_within_roi_witness :
  flat (effective_roi img_sample roi_sample true true (Some roi_sample)) !! 2%nat
    = Some true ∧
  flat roi_sample !! 2%nat = Some true ∧
  ∃ x, flat img_sample !! 2%nat = Some x ∧ isfinite x = true.
Proof.
  assert (H : flat (effective_roi img_sample roi_sample true true (Some roi_sample))
                !! 2%nat = Some true) by reflexivity.
  split; [exact H|].
  destruct (effective_roi_within_roi img_sample roi_sample true true
              (Some roi_sample) 2 H) as (_ & Hroi & _ & _ & Hfin).
  split; [exact Hroi | exact (Hfin eq_refl)].
Defined.

(** X2: the sample holds no infinity and no NaN under [ignore_inf], no NaN
    under [ignore_nan], and neither the sample nor the variances taken with
    it have more elements than the ROI has true voxels. *)
Theorem sample_values_pass_the_filters img (var_img : ndarray num) roi
    ignore_nan ignore_inf mask :
  Forall (λ x, isfinite x = true)
    (bool_index img (effective_roi img roi ignore_nan true mask)) ∧
  Forall (λ x, isnan x = false)
    (bool_index img (effective_roi img roi true ignore_inf mask)) ∧
  (length (bool_index img (effective_roi img roi ignore_nan ignore_inf mask))
     ≤ count_true (flat roi))%nat ∧
  (length (bool_index var_img (effective_roi img roi ignore_nan ignore_inf mask))
     ≤ count_true (flat roi))%nat.
Proof.
  split; [|split; [|split]].
  - apply Forall_select. intros i x Heff Hx.
    apply effective_roi_true in Heff as (_ & _ & _ & Hfin).
    destruct (Hfin eq_refl) as (y & Hy & ?). congruence.
  - apply Forall_select. intros i x Heff Hx.
    apply effective_roi_true in Heff as (_ & _ & Hnan & _).
    destruct (Hnan eq_refl) as (y & Hy & ?). congruence.
  - etrans; [apply length_select_le | apply count_true_effective_roi].
  - etrans; [apply length_select_le | apply count_true_effective_roi].
Qed.

Lemma zip_andb_notnan_finite (r : list bool) (v : list num) :
  zip_with andb (zip_with andb r (negb <$> (isnan <$> v))) (isfinite <$> v) =
  zip_with andb r (isfinite <$> v).
Proof.
  revert v. induction r as [|b r IH]; intros [|x v]; simpl; try done.
  rewrite IH. f_equal. by destruct b, x.
Qed.

(** X3: with [ignore_inf] on, [ignore_nan] changes nothing: [np.isfinite]
    already excludes NaN, so the effective ROI and the whole outcome of
    [get_stats] are the same with [ignore_nan] on or off. *)
Theorem ignore_nan_redundant_under_ignore_inf np_std np_median scipy_iqr
    stats img var_img roi suffix min_nvoxels mask :
  effective_roi img roi true true mask = effective_roi img roi false true mask ∧
  get_stats np_std np_median scipy_iqr stats img var_img roi suffix
    true true min_nvoxels mask =
  get_stats np_std np_median scipy_iqr stats img var_img roi suffix
    false true min_nvoxels mask.
Proof.
  assert (H : effective_roi img roi true true mask =
              effective_roi img roi false true mask).
  { unfold effective_roi, np_logical_and, np_map. cbn [flat shape].
    by rewrite zip_andb_notnan_finite. }
  split; [done|]. unfold get_stats. by rewrite H.
Qed.

Lemma stat_key_inj n1 n2 s1 s2 :
  n1 ∈ stat_names → n2 ∈ stat_names → n1 +:+ s1 = n2 +:+ s2 → n1 = n2 ∧ s1 = s2.
Proof.
  unfold stat_names. rewrite !elem_of_cons, !elem_of_nil.
  intros [->|[->|[->|[->|[->|[->|[->|[]]]]]]]] [->|[->|[->|[->|[->|[->|[->|[]]]]]]]];
    cbv [String.append]; intros H; split; congruence.
Qed.

Lemma stat_keys_disjoint s1 s2 k :
  s1 ≠ s2 → k ∈ stat_keys s1 → k ∉ stat_keys s2.
Proof.
  unfold stat_keys. intros Hne (n1 & -> & H1)%list_elem_of_fmap (n2 & Heq & H2)%list_elem_of_fmap.
  by destruct (stat_key_inj n1 n2 s1 s2 H1 H2 Heq).
Qed.

Lemma name_not_stat_key suffix : "name" ∉ stat_keys suffix.
Proof.
  unfold stat_keys, stat_names. cbn [fmap list_fmap].
  rewrite !not_elem_of_cons. cbv [String.append].
  repeat split; try congruence. apply not_elem_of_nil.
Qed.

(** Inserts of values the map already holds at those keys. *)
Ltac absorb_inserts :=
  match goal with
  | |- _ = ?m =>
      let st := fresh "st" in
      set (st := m);
      repeat (rewrite (insert_id st) by (unfold st; lookup_stat));
      reflexivity
  end.

Section extractor_frame.

Variables np_std np_median scipy_iqr : list num → num.

Local Abbreviation get_stats_ := (get_stats np_std np_median scipy_iqr).

(** Either the shapes pass validation or the call raises with the row
    untouched. *)
Lemma get_stats_valid_or_raises stats img var_img roi suffix ignore_nan
    ignore_inf min_nvoxels mask :
  (shape img = shape roi ∧ shape var_img = shape roi ∧
   ∀ m, mask = Some m → shape m = shape roi) ∨
  ∃ e, get_stats_ stats img var_img roi suffix ignore_nan ignore_inf
         min_nvoxels mask = (stats, Raise e).
Proof.
  unfold get_stats.
  destruct (decide (shape img = shape roi)) as [Hi|Hi];
    [|right; rewrite bool_decide_eq_true_2 by done; eauto].
  rewrite (bool_decide_eq_false_2 (shape img ≠ shape roi)) by (intros H; by apply H).
  destruct (decide (shape var_img = shape roi)) as [Hv|Hv];
    [|right; rewrite bool_decide_eq_true_2 by done; eauto].
  rewrite (bool_decide_eq_false_2 (shape var_img ≠ shape roi)) by (intros H; by apply H).
  destruct mask as [m|]; [|left; by repeat split].
  destruct (decide (shape m = shape roi)) as [Hm|Hm].
  - left. repeat split; try done. by intros ? [= <-].
  - right. rewrite bool_decide_eq_true_2 by done. eauto.
Qed.

(** The columns of other suffixes, and every other key, keep their value,
    however the call ends. *)
Lemma get_stats_lookup_other stats img var_img roi suffix ignore_nan
    ignore_inf min_nvoxels mask k :
  k ∉ stat_keys suffix →
  (get_stats_ stats img var_img roi suffix ignore_nan ignore_inf
     min_nvoxels mask).1 !! k = stats !! k.
Proof.
  intros Hk.
  unfold stat_keys, stat_names in Hk. cbn [fmap list_fmap] in Hk.
  rewrite !not_elem_of_cons in Hk. destruct Hk as (?&?&?&?&?&?&?&_).
  destruct (get_stats_valid_or_raises stats img var_img roi suffix ignore_nan
              ignore_inf min_nvoxels mask) as [(Hi & Hv & Hm)|[e ->]]; [|done].
  destruct (Z.lt_ge_cases
              (Z.of_nat (length (bool_index img
                 (effective_roi img roi ignore_nan ignore_inf mask))))
              min_nvoxels) as [Hlt|Hge].
  - rewrite get_stats_below by done. cbn [fst].
    by rewrite !lookup_insert_ne by congruence.
  - rewrite get_stats_enough by done.
    destruct (i2 _ _); cbn [fst]; by rewrite !lookup_insert_ne by congruence.
Qed.

(** X4: [get_stats] writes no key but the seven columns of its suffix:
    every other key of the row, the ["name"] key among them, keeps the
    value it had, whether the call returns or raises. *)
Theorem get_stats_writes_only_its_columns stats img var_img roi suffix
    ignore_nan ignore_inf min_nvoxels mask :
  let out := get_stats_ stats img var_img roi suffix ignore_nan ignore_inf
               min_nvoxels mask in
  (∀ k, k ∉ stat_keys suffix → out.1 !! k = stats !! k) ∧
  out.1 !! "name" = stats !! "name" ∧
  stat_keys suffix =
    [ "Nvoxels" +:+ suffix; "Mean" +:+ suffix; "Std" +:+ suffix;
      "Median" +:+ suffix; "IQR" +:+ suffix;
      "Precision-weighted mean" +:+ suffix; "I2" +:+ suffix ].
Proof.
  intros out. split; [|split; [|done]].
  - intros k Hk. by apply get_stats_lookup_other.
  - apply get_stats_lookup_other, name_not_stat_key.
Qed.

(** X5: two datasets with different suffixes never share a column, so a
    later call leaves every column an earlier call wrote as it was. *)
Theorem later_dataset_keeps_earlier_columns stats img1 var1 roi1 s1 nan1 inf1 min1
    mask1 img2 var2 roi2 s2 nan2 inf2 min2 mask2 :
  s1 ≠ s2 →
  let first := (get_stats_ stats img1 var1 roi1 s1 nan1 inf1 min1 mask1).1 in
  let second := (get_stats_ first img2 var2 roi2 s2 nan2 inf2 min2 mask2).1 in
  ∀ k, k ∈ stat_keys s1 → second !! k = first !! k.
Proof.
  intros Hne first second k Hk.
  apply get_stats_lookup_other. by eapply stat_keys_disjoint.
Qed.

(** X6: running [get_stats] again on the row it left, with the same
    arguments, changes nothing: same row, same outcome. *)
Theorem get_stats_idempotent stats img var_img roi suffix ignore_nan
    ignore_inf min_nvoxels mask :
  let out := get_stats np_std np_median scipy_iqr stats img var_img roi suffix
               ignore_nan ignore_inf min_nvoxels mask in
  get_stats np_std np_median scipy_iqr out.1 img var_img roi suffix
    ignore_nan ignore_inf min_nvoxels mask
  = out.
Proof.
  intros out. unfold out.
  destruct (get_stats_valid_or_raises stats img var_img roi suffix ignore_nan
              ignore_inf min_nvoxels mask) as [(Hi & Hv & Hm)|[e He]].
  2:{ rewrite He. cbn [fst]. exact He. }
  destruct (Z.lt_ge_cases
              (Z.of_nat (length (bool_index img
                 (effective_roi img roi ignore_nan ignore_inf mask))))
              min_nvoxels) as [Hlt|Hge].
  - rewrite !get_stats_below by done. cbn [fst]. f_equal. absorb_inserts.
  - rewrite !get_stats_enough by done.
    destruct (i2 _ _); cbn [fst]; f_equal; absorb_inserts.
Qed.

End extractor_frame.

Lemma later_dataset_keeps_earlier_columns_witness :
  "" ≠ " GM" ∧
  let first := (get_stats np_mean np_mean np_mean ∅ img_sample unit_var_sample
                  roi_sample "" true true 2 None).1 in
  let second := (get_stats np_mean np_mean np_mean first img_sample
                   unit_var_sample roi_sample " GM" true true 10 None).1 in
  second !! "I2" = first !! "I2".
Proof.
  assert (Hne : "" ≠ " GM") by discriminate.
  split; [exact Hne|]. intros first second.
  apply (later_dataset_keeps_earlier_columns np_mean np_mean np_mean ∅
           img_sample unit_var_sample roi_sample "" true true 2 None
           img_sample unit_var_sample roi_sample " GM" true true 10 None
           Hne "I2").
  unfold stat_keys, stat_names. cbn [fmap list_fmap]. repeat constructor.
Defined.

(** ** Non-finite weights and empty samples *)

Lemma nadd_nonfinite_l x y : isfinite x = false → isfinite (nadd x y) = false.
Proof. by destruct x, y. Qed.

Lemma nadd_nonfinite_r x y : isfinite y = false → isfinite (nadd x y) = false.
Proof. by destruct x, y. Qed.

Lemma nmul_nonfinite_l x y : isfinite x = false → isfinite (nmul x y) = false.
Proof.
  destruct x, y as [b| | |]; simpl; try done;
    destruct (Qc_is_zero b), (Qc_is_neg b); done.
Qed.

Lemma ndiv_nonfinite x y :
  isfinite x = false → isfinite y = false → ndiv x y = NaN.
Proof. by destruct x, y. Qed.

Lemma nmul_nan_r x : nmul x NaN = NaN.
Proof. by destruct x. Qed.

Lemma nadd_nan_l y : nadd NaN y = NaN.
Proof. done. Qed.

Lemma nadd_nan_r x : nadd x NaN = NaN.
Proof. by destruct x. Qed.

Lemma fold_nadd_nonfinite l acc :
  isfinite acc = false → isfinite (fold_left nadd l acc) = false.
Proof.
  revert acc. induction l as [|x l IH]; intros acc H; simpl; [done|].
  by apply IH, nadd_nonfinite_l.
Qed.

Lemma fold_nadd_nonfinite_elem l acc i x :
  l !! i = Some x → isfinite x = false →
  isfinite (fold_left nadd l acc) = false.
Proof.
  revert acc i. induction l as [|y l IH]; intros acc [|i] Hl Hx; simpl in *; try done.
  - injection Hl as ->. by apply fold_nadd_nonfinite, nadd_nonfinite_r.
  - by eapply IH.
Qed.

Lemma fold_nadd_nan l : fold_left nadd l NaN = NaN.
Proof. induction l as [|x l IH]; [done|]. cbn [fold_left]. by rewrite nadd_nan_l. Qed.

Lemma fold_nadd_nan_elem l acc i :
  l !! i = Some NaN → fold_left nadd l acc = NaN.
Proof.
  revert acc i. induction l as [|y l IH]; intros acc [|i] Hl; simpl in *; try done.
  - injection Hl as ->. by rewrite nadd_nan_r, fold_nadd_nan.
  - by eapply IH.
Qed.

Lemma precision_nonfinite v :
  isfinite (precision v) = false ↔ v = NaN ∨ v = Fin 0%Qc.
Proof.
  split.
  - destruct v as [q| | |]; [|done|done|by left].
    unfold precision, ndiv. destruct (Qc_is_zero q) eqn:Hz; [|done].
    intros _. right. f_equal.
    apply Qc_is_canon. unfold Qc_is_zero in Hz. apply Z.eqb_eq in Hz.
    unfold Qeq. simpl. lia.
  - by intros [->| ->].
Qed.

(** A weight that is not finite makes the percentage NaN. *)
Lemma I2_percent_nonfinite_weight val var i x v :
  val !! i = Some x → var !! i = Some v → isfinite (precision v) = false →
  I2_percent val var = NaN.
Proof.
  intros Hx Hv Hw.
  assert (Hwi : I2_weights var !! i = Some (precision v)).
  { unfold I2_weights, precision. rewrite <-num_of_Z_1.
    by rewrite list_lookup_fmap, Hv. }
  assert (Hmu : I2_mu val var = NaN).
  { unfold I2_mu. apply ndiv_nonfinite.
    - apply (fold_nadd_nonfinite_elem _ _ i (nmul (precision v) x)).
      + rewrite lookup_zip_with, Hwi. cbn. by rewrite Hx.
      + by apply nmul_nonfinite_l.
    - by apply (fold_nadd_nonfinite_elem _ _ i (precision v)). }
  assert (HQ : I2_Q val var = NaN).
  { unfold I2_Q. rewrite Hmu. apply (fold_nadd_nan_elem _ _ i).
    apply lookup_zip_with_Some. exists (precision v), NaN.
    split; [by rewrite nmul_nan_r|]. split; [done|].
    rewrite list_lookup_fmap, Hx. cbn [fmap option_fmap option_map].
    f_equal. unfold nsub. cbn [nneg]. by rewrite nadd_nan_r. }
  unfold I2_percent. rewrite HQ. done.
Qed.

Lemma i2_nonfinite_weight val var i x v :
  length val = length var →
  val !! i = Some x → var !! i = Some v → isfinite (precision v) = false →
  i2 val var = Raise (ValueError "cannot convert float NaN to integer").
Proof.
  intros Hlen Hx Hv Hw.
  rewrite i2_nonempty; [|by destruct val|done].
  by rewrite (I2_percent_nonfinite_weight val var i x v).
Qed.

(** Without values there is nothing to divide by: [Q] is the [int] 0. *)
Lemma i2_no_values var : i2 [] var = Raise ZeroDivisionError.
Proof.
  unfold i2. rewrite mapM_weights. cbn [mbind result_bind].
  destruct (I2_weights var) as [|w ws]; [done|].
  rewrite (py_sum_np_cons (w :: ws)) by done. reflexivity.
Qed.

(** X7: one variance that is zero or NaN is enough for [i2] to raise: the
    weight [1/var] is then infinite or NaN, the weighted mean and [Q]
    become NaN, and [int()] of NaN is a [ValueError]. *)
Theorem i2_raises_on_zero_or_nan_variance val var i v :
  length val = length var →
  var !! i = Some v →
  v = NaN ∨ v = Fin 0%Qc →
  I2_percent val var = NaN ∧
  i2 val var = Raise (ValueError "cannot convert float NaN to integer").
Proof.
  intros Hlen Hv Hbad. apply precision_nonfinite in Hbad.
  destruct (val !! i) as [x|] eqn:Hx.
  - split.
    + by eapply I2_percent_nonfinite_weight.
    + by eapply i2_nonfinite_weight.
  - apply lookup_ge_None in Hx. apply lookup_lt_Some in Hv. lia.
Qed.

Lemma i2_raises_on_zero_or_nan_variance_witness :
  length (floats [1; 2; 5]) = length (floats [1; 0; 1]) ∧
  floats [1; 0; 1] !! 1%nat = Some (Fin 0%Qc) ∧
  i2 (floats [1; 2; 5]) (floats [1; 0; 1]) =
    Raise (ValueError "cannot convert float NaN to integer").
Proof.
  assert (Hv : floats [1; 0; 1] !! 1%nat = Some (Fin 0%Qc)).
  { cbn. f_equal. apply num_of_Z_0. }
  split; [reflexivity|]. split; [exact Hv|].
  exact (proj2 (i2_raises_on_zero_or_nan_variance (floats [1; 2; 5])
                  (floats [1; 0; 1]) 1 (Fin 0%Qc) eq_refl Hv (or_intror eq_refl))).
Defined.

Lemma length_select_same {A B} (m : list bool) (a : list A) (b : list B) :
  length a = length b → length (select m a) = length (select m b).
Proof.
  revert a b. induction m as [|c m IH]; intros [|x a] [|y b] Hlen;
    simpl in *; try done.
  destruct c; simpl; rewrite (IH a b); (done || lia).
Qed.

Section extractor_degenerate.

Variables np_std np_median scipy_iqr : list num → num.

Local Abbreviation STATS := (STATS_FNS np_std np_median scipy_iqr).
Local Abbreviation get_stats_ := (get_stats np_std np_median scipy_iqr).

(** X8: a voxel of zero or NaN variance inside the effective ROI aborts the
    call once the sample is large enough: the precision-weighted mean is
    written (it gives such a voxel zero weight), then [i2] raises the NaN
    [ValueError], and the [I2] column keeps whatever it held. *)
Theorem get_stats_raises_on_zero_or_nan_variance stats img var_img roi suffix
    ignore_nan ignore_inf min_nvoxels mask i q v :
  shape img = shape roi → shape var_img = shape roi →
  (∀ m, mask = Some m → shape m = shape roi) →
  well_formed img → well_formed var_img →
  flat roi !! i = Some true →
  (∀ m, mask = Some m → flat m !! i = Some true) →
  flat img !! i = Some (Fin q) →
  flat var_img !! i = Some v →
  v = NaN ∨ v = Fin 0%Qc →
  let effective_roi := effective_roi img roi ignore_nan ignore_inf mask in
  let sample := bool_index img effective_roi in
  let sample_var := bool_index var_img effective_roi in
  (min_nvoxels ≤ Z.of_nat (length sample))%Z →
  let out := get_stats_ stats img var_img roi suffix ignore_nan ignore_inf
               min_nvoxels mask in
  out.2 = Raise (ValueError "cannot convert float NaN to integer") ∧
  out.1 !! ("Precision-weighted mean" +:+ suffix) =
    Some (VFloat (mean_invvarweighted sample sample_var)) ∧
  out.1 !! ("I2" +:+ suffix) = stats !! ("I2" +:+ suffix).
Proof.
  intros Hsi Hsv Hsm Hwi Hwv Hroi Hmask Himg Hvar Hbad eff sd sv Hge out.
  assert (Heff : flat eff !! i = Some true) by (by eapply effective_roi_keeps).
  assert (Hi2 : i2 sd sv = Raise (ValueError "cannot convert float NaN to integer")).
  { apply (i2_nonfinite_weight sd sv (rank (flat eff) i) (Fin q) v).
    - apply length_select_same. unfold well_formed in *. by rewrite Hwi, Hwv, Hsi, Hsv.
    - by apply select_lookup_rank.
    - by apply select_lookup_rank.
    - by apply precision_nonfinite. }
  assert (Hout : out = _) by (by apply get_stats_enough).
  cbv zeta in Hout. fold eff in Hout. fold sd in Hout. fold sv in Hout.
  rewrite Hi2 in Hout. rewrite Hout. cbn [fst snd].
  split; [done|]. split; [lookup_stat|].
  by rewrite !lookup_insert_ne by (cbv [String.append]; congruence).
Qed.

(** X9: an ROI without a true voxel gives [Nvoxels = 0]; with a positive
    [min_nvoxels] the call returns and every statistic is [None]; with
    [min_nvoxels] zero or negative the statistics are computed on the
    empty sample and [i2] raises [ZeroDivisionError]. *)
Theorem get_stats_roi_without_voxels stats img var_img roi suffix ignore_nan
    ignore_inf min_nvoxels mask :
  shape img = shape roi → shape var_img = shape roi →
  (∀ m, mask = Some m → shape m = shape roi) →
  count_true (flat roi) = 0%nat →
  let out := get_stats_ stats img var_img roi suffix ignore_nan ignore_inf
               min_nvoxels mask in
  out.1 !! ("Nvoxels" +:+ suffix) = Some (VInt 0) ∧
  ((0 < min_nvoxels)%Z →
     out.2 = Ok tt ∧
     ∀ stat fn, (stat, fn) ∈ STATS → out.1 !! (stat +:+ suffix) = Some VNone) ∧
  ((min_nvoxels ≤ 0)%Z → out.2 = Raise ZeroDivisionError).
Proof.
  intros Hsi Hsv Hsm Hroi out.
  assert (Hsd : bool_index img (effective_roi img roi ignore_nan ignore_inf mask) = []).
  { apply length_zero_iff_nil. unfold bool_index.
    pose proof (length_select_le
      (flat (effective_roi img roi ignore_nan ignore_inf mask)) (flat img)).
    pose proof (count_true_effective_roi img roi ignore_nan ignore_inf mask). lia. }
  split; [|split].
  - unfold out. rewrite get_stats_nvoxels by done. by rewrite Hsd.
  - intros Hmin.
    pose proof (get_stats_below np_std np_median scipy_iqr stats img var_img roi
                  suffix ignore_nan ignore_inf min_nvoxels mask Hsi Hsv Hsm) as Hout.
    cbv zeta in Hout. rewrite Hsd in Hout. fold out in Hout.
    rewrite Hout by (cbn; lia). cbn [fst snd]. split; [done|].
    intros stat fn Hin. stat_cases Hin; lookup_stat.
  - intros Hmin.
    pose proof (get_stats_enough np_std np_median scipy_iqr stats img var_img roi
                  suffix ignore_nan ignore_inf min_nvoxels mask Hsi Hsv Hsm) as Hout.
    cbv zeta in Hout. rewrite Hsd, i2_no_values in Hout. fold out in Hout.
    by rewrite Hout by (cbn; lia).
Qed.

End extractor_degenerate.

Lemma get_stats_raises_on_zero_or_nan_variance_witness :
  let out := get_stats np_mean np_mean np_mean ∅ img_sample var_sample
               roi_sample "" true true 3 None in
  (shape img_sample = shape roi_sample ∧ shape var_sample = shape roi_sample ∧
   well_formed img_sample ∧ well_formed var_sample ∧
   flat roi_sample !! 1%nat = Some true ∧
   flat img_sample !! 1%nat = Some (num_of_Z 2) ∧
   flat var_sample !! 1%nat = Some NaN) ∧
  out.2 = Raise (ValueError "cannot convert float NaN to integer").
Proof.
  intros out.
  assert (H3 : ∀ m, @None (ndarray bool) = Some m → shape m = shape roi_sample)
    by (intros m Hm; discriminate Hm).
  assert (H4 : ∀ m, @None (ndarray bool) = Some m → flat m !! 1%nat = Some true)
    by (intros m Hm; discriminate Hm).
  assert (Hmin : (3 ≤ Z.of_nat (length (bool_index img_sample
                    (effective_roi img_sample roi_sample true true None))))%Z)
    by (vm_compute; discriminate).
  split; [by repeat split|].
  exact (proj1 (get_stats_raises_on_zero_or_nan_variance np_mean np_mean np_mean
                  ∅ img_sample var_sample roi_sample "" true true 3 None 1
                  (Qc_of_Z 2) NaN eq_refl eq_refl H3 eq_refl eq_refl eq_refl H4
                  eq_refl eq_refl (or_introl eq_refl) Hmin)).
Defined.

Lemma get_stats_roi_without_voxels_witness :
  let roi := mk_ndarray grid_sample [false; false; false; false] in
  let out := get_stats np_mean np_mean np_mean ∅ img_sample unit_var_sample
               roi "" true true 10 None in
  (shape img_sample = shape roi ∧ shape unit_var_sample = shape roi ∧
   count_true (flat roi) = 0%nat) ∧
  out.1 !! "Nvoxels" = Some (VInt 0) ∧ out.2 = Ok tt.
Proof.
  intros roi out.
  assert (H3 : ∀ m, @None (ndarray bool) = Some m → shape m = shape roi)
    by (intros m Hm; discriminate Hm).
  split; [by repeat split|].
  pose proof (get_stats_roi_without_voxels np_mean np_mean np_mean ∅ img_sample
                unit_var_sample roi "" true true 10 None eq_refl eq_refl H3
                eq_refl) as H.
  cbv zeta in H. destruct H as (Hn & Hpos & _).
  split; [exact Hn|]. apply Hpos. reflexivity.
Defined.

(* ================================================================== *)
(** * ROI names and file names *)

Lemma ascii_eqb_sym (c d : ascii) : Ascii.eqb c d = Ascii.eqb d c.
Proof.
  destruct (Ascii.eqb_spec c d) as [->|Hne].
  - by rewrite Ascii.eqb_refl.
  - symmetry. apply Ascii.eqb_neq. congruence.
Qed.

Lemma append_cons c s t : String c s +:+ t = String c (s +:+ t).
Proof. reflexivity. Qed.

Lemma append_nil t : "" +:+ t = t.
Proof. reflexivity. Qed.

Lemma str_contains_app c s t :
  str_contains c (s +:+ t) = str_contains c s || str_contains c t.
Proof.
  induction s as [|d s IH]; [done|].
  rewrite append_cons. cbn [str_contains]. rewrite IH. by rewrite orb_assoc.
Qed.

Lemma split_dot_first_no_dot s : str_contains "." (split_dot_first s) = false.
Proof.
  induction s as [|c s IH]; [done|]. cbn [split_dot_first].
  destruct (Ascii.eqb c ".") eqn:Hc; [done|].
  cbn [str_contains]. by rewrite ascii_eqb_sym, Hc, IH.
Qed.

Lemma split_dot_first_contains c s :
  str_contains c (split_dot_first s) = true → str_contains c s = true.
Proof.
  induction s as [|d s IH]; [done|]. cbn [split_dot_first].
  destruct (Ascii.eqb d "."); [done|]. cbn [str_contains].
  intros [->|H]%orb_true_iff; [done|]. rewrite IH by done. apply orb_true_r.
Qed.

Lemma os_path_basename_no_sep p : str_contains "/" (os_path_basename p) = false.
Proof.
  induction p as [|c p IH]; [done|]. cbn [os_path_basename].
  destruct (str_contains "/" p) eqn:Hp; [done|].
  destruct (Ascii.eqb c "/") eqn:Hc; [done|].
  cbn [str_contains]. by rewrite ascii_eqb_sym, Hc, Hp.
Qed.

Lemma os_path_basename_no_dir p :
  str_contains "/" p = false → os_path_basename p = p.
Proof.
  destruct p as [|c p]; [done|]. cbn [os_path_basename str_contains].
  intros [Hc Hp]%orb_false_iff. by rewrite Hp, ascii_eqb_sym, Hc.
Qed.

Lemma os_path_basename_dir dir base :
  str_contains "/" base = false →
  os_path_basename (dir +:+ "/" +:+ base) = base.
Proof.
  intros Hb. induction dir as [|c dir IH].
  - rewrite append_nil, append_cons, append_nil. cbn [os_path_basename].
    by rewrite Hb.
  - rewrite append_cons. cbn [os_path_basename].
    rewrite str_contains_app, append_cons. cbn [str_contains].
    rewrite Ascii.eqb_refl, orb_true_r. exact IH.
Qed.

Lemma split_dot_first_stem stem rest :
  str_contains "." stem = false → split_dot_first (stem +:+ "." +:+ rest) = stem.
Proof.
  induction stem as [|c stem IH]; [done|].
  rewrite append_cons. cbn [str_contains split_dot_first].
  intros [Hc Hs]%orb_false_iff. rewrite ascii_eqb_sym, Hc. f_equal. by apply IH.
Qed.

(** X10: the name [main] derives from the file of a user-supplied ROI
    never holds a path separator or a dot, whatever the file name. *)
Theorem roi_name_of_file_has_no_separator_or_dot fname :
  str_contains "/" (roi_name_of_file fname) = false ∧
  str_contains "." (roi_name_of_file fname) = false.
Proof.
  unfold roi_name_of_file. split; [|apply split_dot_first_no_dot].
  destruct (str_contains "/" (split_dot_first (os_path_basename fname))) eqn:H;
    [|done].
  apply split_dot_first_contains in H. by rewrite os_path_basename_no_sep in H.
Qed.

(** X11: for a file [dir/stem.rest], with or without the directory, the
    ROI is named [stem], provided [stem] holds no separator and no dot and
    [rest] no separator. *)
Theorem roi_name_of_file_is_the_stem dir stem rest :
  str_contains "/" stem = false → str_contains "." stem = false →
  str_contains "/" rest = false →
  roi_name_of_file (dir +:+ "/" +:+ stem +:+ "." +:+ rest) = stem ∧
  roi_name_of_file (stem +:+ "." +:+ rest) = stem.
Proof.
  intros Hs Hd Hr.
  assert (Hbase : str_contains "/" (stem +:+ "." +:+ rest) = false).
  { rewrite !str_contains_app, Hs, Hr. done. }
  unfold roi_name_of_file. split.
  - rewrite os_path_basename_dir by done. by apply split_dot_first_stem.
  - rewrite os_path_basename_no_dir by done. by apply split_dot_first_stem.
Qed.

Lemma roi_name_of_file_is_the_stem_witness :
  (str_contains "/" "Left Thalamus" = false ∧
   str_contains "." "Left Thalamus" = false ∧
   str_contains "/" "nii.gz" = false) ∧
  roi_name_of_file "/data/v1.2/Left Thalamus.nii.gz" = "Left Thalamus".
Proof.
  split; [by repeat split|].
  exact (proj1 (roi_name_of_file_is_the_stem "/data/v1.2" "Left Thalamus" "nii.gz"
                  eq_refl eq_refl eq_refl)).
Defined.

Lemma ascii_lower_facts d :
  is_upper (ascii_lower d) = false ∧
  (ascii_lower d = " "%char → d = " "%char) ∧
  (ascii_lower d = ","%char → d = ","%char).
Proof.
  destruct d as [[] [] [] [] [] [] [] []]; vm_compute; repeat split; congruence.
Qed.

Lemma ascii_lower_fixed d : is_upper d = false → ascii_lower d = d.
Proof. unfold ascii_lower. by intros ->. Qed.

Lemma str_lower_contains c s :
  str_contains c (str_lower s) = true →
  ∃ d, c = ascii_lower d ∧ str_contains d s = true.
Proof.
  induction s as [|e s IH]; [done|]. cbn [str_lower str_contains].
  intros [Hc|Hc]%orb_true_iff.
  - apply Ascii.eqb_eq in Hc as ->. exists e. by rewrite Ascii.eqb_refl.
  - destruct (IH Hc) as (d & -> & Hd). exists d. by rewrite Hd, orb_true_r.
Qed.

Lemma str_remove_char_contains c d s :
  str_contains d (str_remove_char c s) = true →
  d ≠ c ∧ str_contains d s = true.
Proof.
  induction s as [|e s IH]; [done|]. cbn [str_remove_char str_contains].
  destruct (Ascii.eqb e c) eqn:He.
  - intros H. destruct (IH H) as [? Hd]. by rewrite Hd, orb_true_r.
  - cbn [str_contains]. intros [Hd|Hd]%orb_true_iff.
    + apply Ascii.eqb_eq in Hd as ->. rewrite Ascii.eqb_refl.
      split; [|done]. by apply Ascii.eqb_neq.
    + destruct (IH Hd) as [? Hd']. by rewrite Hd', orb_true_r.
Qed.

Lemma str_replace_char_contains c c' d s :
  c' ≠ c → str_contains d (str_replace_char c c' s) = true → d ≠ c.
Proof.
  intros Hcc. induction s as [|e s IH]; [done|].
  cbn [str_replace_char str_contains]. intros [Hd|Hd]%orb_true_iff; [|by apply IH].
  apply Ascii.eqb_eq in Hd as ->.
  destruct (Ascii.eqb e c) eqn:He; [done|]. by apply Ascii.eqb_neq.
Qed.

Lemma roi_file_stem_chars name c :
  str_contains c (roi_file_stem name) = true →
  c ≠ " "%char ∧ c ≠ ","%char ∧ is_upper c = false.
Proof.
  unfold roi_file_stem. intros (d & -> & Hd)%str_lower_contains.
  apply str_remove_char_contains in Hd as [Hcomma Hd].
  apply str_replace_char_contains in Hd; [|done].
  destruct (ascii_lower_facts d) as (Hup & Hsp & Hco).
  split; [|split]; [intros H; by apply Hd, Hsp | intros H; by apply Hcomma, Hco | done].
Qed.

Lemma roi_file_stem_fixed s :
  (∀ c, str_contains c s = true →
        c ≠ " "%char ∧ c ≠ ","%char ∧ is_upper c = false) →
  roi_file_stem s = s.
Proof.
  unfold roi_file_stem. induction s as [|e s IH]; [done|]. intros H.
  destruct (H e) as (Hsp & Hco & Hup).
  { cbn [str_contains]. by rewrite Ascii.eqb_refl. }
  cbn [str_replace_char]. apply Ascii.eqb_neq in Hsp, Hco.
  rewrite Hsp. cbn [str_remove_char]. rewrite Hco. cbn [str_lower].
  rewrite ascii_lower_fixed by done. f_equal. apply IH.
  intros c Hc. apply H. cbn [str_contains]. by rewrite Hc, orb_true_r.
Qed.

(** X12: the file name of an ROI holds no space, no comma and no
    upper-case letter before its [.nii.gz] ending. *)
Theorem roi_filename_is_sanitized name :
  roi_filename name = roi_file_stem name +:+ ".nii.gz" ∧
  ∀ c, str_contains c (roi_file_stem name) = true →
    c ≠ " "%char ∧ c ≠ ","%char ∧ is_upper c = false.
Proof. split; [done|]. apply roi_file_stem_chars. Qed.

(** X13: sanitizing is idempotent, so an ROI named like the sanitized
    form of another ROI's name is saved under that other ROI's file
    name. *)
Theorem roi_filename_collides_with_sanitized_name name :
  roi_file_stem (roi_file_stem name) = roi_file_stem name ∧
  roi_filename (roi_file_stem name) = roi_filename name.
Proof.
  assert (H : roi_file_stem (roi_file_stem name) = roi_file_stem name).
  { apply roi_file_stem_fixed. intros c. apply roi_file_stem_chars. }
  split; [done|]. unfold roi_filename. by rewrite H.
Qed.

(* ================================================================== *)
(** * Further properties of the statistics and of the masks *)

Lemma fold_nadd_zeros l acc :
  Forall (λ x, x = Fin 0%Qc) l → fold_left nadd l acc = acc.
Proof.
  intros H. revert acc. induction H as [|x l -> _ IH]; intros acc; [done|].
  cbn [fold_left]. by rewrite nadd_0_r.
Qed.

(** X14: when no element has a usable variance (each is zero, NaN or
    infinite) and the values are finite, every weight is zero and the
    precision-weighted mean is [0/0], NaN; so it is for the empty
    sample. *)
Theorem mean_invvarweighted_without_usable_variance val var :
  Forall2 (λ x v, isfinite x = true ∧
                  (v = NaN ∨ v = Fin 0%Qc ∨ v = PInf ∨ v = NInf)) val var →
  mean_invvarweighted val var = NaN.
Proof.
  intros H. rewrite mean_invvarweighted_unfold. cbv zeta.
  assert (Hprec : Forall (λ p, p = Fin 0%Qc)
            ((λ v, if isfinite (precision v) then precision v else Fin 0%Qc) <$> var)).
  { apply Forall_fmap. induction H as [|x v val var [_ Hv] _ IH]; constructor; [|done].
    cbn. by destruct Hv as [->|[->|[->| ->]]]. }
  assert (Hnum : Forall (λ p, p = Fin 0%Qc)
            (zip_with nmul val
               ((λ v, if isfinite (precision v) then precision v else Fin 0%Qc) <$> var))).
  { clear Hprec. induction H as [|x v val var [Hx Hv] _ IH]; [constructor|].
    cbn [fmap list_fmap zip_with]. constructor; [|exact IH].
    replace (if isfinite (precision v) then precision v else Fin 0%Qc)
      with (Fin 0%Qc) by (by destruct Hv as [->|[->|[->| ->]]]).
    by apply nmul_0_r_finite. }
  unfold np_sum. by rewrite !fold_nadd_zeros.
Qed.

Lemma mean_invvarweighted_without_usable_variance_witness :
  Forall2 (λ x v, isfinite x = true ∧
                  (v = NaN ∨ v = Fin 0%Qc ∨ v = PInf ∨ v = NInf))
    (floats [3; 4]) [Fin 0%Qc; PInf] ∧
  mean_invvarweighted (floats [3; 4]) [Fin 0%Qc; PInf] = NaN.
Proof.
  assert (H : Forall2 (λ x v, isfinite x = true ∧
                (v = NaN ∨ v = Fin 0%Qc ∨ v = PInf ∨ v = NInf))
                (floats [3; 4]) [Fin 0%Qc; PInf]).
  { constructor; [split; [done | right; by left]|].
    constructor; [split; [done | right; right; by left]|]. constructor. }
  split; [exact H|].
  exact (mean_invvarweighted_without_usable_variance _ _ H).
Defined.

Lemma ngt_threshold_mono x (t1 t2 : Qc) :
  (t1 ≤ t2)%Qc → ngt x (Fin t2) = true → ngt x (Fin t1) = true.
Proof.
  intros Hle. destruct x as [a| | |]; simpl; try done.
  rewrite !Qc_ltb_lt. intros Hlt. by eapply Qcle_lt_trans.
Qed.

Lemma count_true_mono (m1 m2 : list bool) :
  length m1 = length m2 →
  (∀ i, m2 !! i = Some true → m1 !! i = Some true) →
  (count_true m2 ≤ count_true m1)%nat.
Proof.
  unfold count_true. revert m2.
  induction m1 as [|b1 m1 IH]; intros [|b2 m2] Hlen H; simpl in *; try done.
  assert (IH' : (length (List.filter id m2) ≤ length (List.filter id m1))%nat).
  { apply IH; [lia|]. intros i. apply (H (S i)). }
  destruct b2; simpl.
  - specialize (H 0%nat eq_refl). injection H as ->. simpl. lia.
  - destruct b1; simpl; lia.
Qed.

(** X15: binarizing one transformed image at a higher threshold gives a
    smaller mask: the mask [add_struct_roi] records at threshold [t2] is
    contained in the one it records at [t1] when [t1 <= t2], voxel by voxel
    and in voxel count (so the fixed 80% GM/WM ROIs lie inside the 10%
    ones). *)
Theorem struct_roi_masks_nest applywarp roi name1 name2 ref struct2asl
    (t1 t2 : Qc) rois1 rois2 :
  (t1 ≤ t2)%Qc →
  let roi_native := applywarp roi ref (struct_kwargs struct2asl) in
  let m1 := np_gt (data roi_native) (Fin t1) in
  let m2 := np_gt (data roi_native) (Fin t2) in
  add_struct_roi applywarp roi name1 ref struct2asl (Some (Fin t1)) rois1 =
    (rois1 ++ [mk_roi name1 (Some roi) None (Some roi_native) (MaskBool m1)], Ok tt) ∧
  add_struct_roi applywarp roi name2 ref struct2asl (Some (Fin t2)) rois2 =
    (rois2 ++ [mk_roi name2 (Some roi) None (Some roi_native) (MaskBool m2)], Ok tt) ∧
  (∀ i, flat m2 !! i = Some true → flat m1 !! i = Some true) ∧
  (count_true (flat m2) ≤ count_true (flat m1))%nat.
Proof.
  intros Hle roi_native m1 m2.
  assert (Hsub : ∀ i, flat m2 !! i = Some true → flat m1 !! i = Some true).
  { intros i. unfold m1, m2, np_gt, np_map. cbn [flat].
    rewrite !list_lookup_fmap. destruct (flat (data roi_native) !! i) as [x|]; [|done].
    cbn. intros [= H]. f_equal. by eapply ngt_threshold_mono. }
  split; [reflexivity|]. split; [reflexivity|]. split; [done|].
  apply count_true_mono; [|done].
  unfold m1, m2, np_gt, np_map. cbn [flat]. by rewrite !length_fmap.
Qed.

Lemma struct_roi_masks_nest_witness :
  (Q2Qc (1 # 10) ≤ Q2Qc (8 # 10))%Qc ∧
  (count_true (flat (np_gt (data (resample_sample reference_sample reference_sample
                                    (struct_kwargs [])))
                       (Fin (Q2Qc (8 # 10))))) ≤
   count_true (flat (np_gt (data (resample_sample reference_sample reference_sample
                                    (struct_kwargs [])))
                       (Fin (Q2Qc (1 # 10))))))%nat.
Proof.
  assert (H : (Q2Qc (1 # 10) ≤ Q2Qc (8 # 10))%Qc) by (by vm_compute).
  split; [exact H|].
  exact (proj2 (proj2 (proj2 (struct_roi_masks_nest resample_sample reference_sample
                   "10%+GM" "80%+GM" reference_sample [] _ _ [] [] H)))).
Defined.

(* ================================================================== *)
(** * The run orchestrator *)

Lemma st_bind_ok {S A B} (m : stateM S A) (k : A → stateM S B) s s' a :
  m s = (s', Ok a) → st_bind m k s = k a s'.
Proof. unfold st_bind. by intros ->. Qed.

Lemma for_each_appends {A} (l : list A) (body : A → stateM (list roi_record) unit)
    (g : A → roi_record) rois :
  (∀ x s, body x s = (s ++ [g x], Ok tt)) →
  for_each l body rois = (rois ++ (g <$> l), Ok tt).
Proof.
  intros Hbody. revert rois. induction l as [|x l IH]; intros rois.
  - cbn. by rewrite app_nil_r.
  - cbn [for_each]. rewrite (st_bind_ok _ _ _ _ _ (Hbody x rois)), IH.
    cbn [fmap list_fmap]. by rewrite <-app_assoc.
Qed.

Section orchestrator_properties.

Variable applywarp : Image → Image → applywarp_kwargs → Image.
Variable Atlas : Type.
Variable getAtlasDescription : string → atlas_description.
Variable loadAtlas : string → Z → Atlas.
Variable atlas_get : Atlas → atlas_label → Image.
Variable Image_load : string → Image.
Variables np_std np_median scipy_iqr : list num → num.

Local Abbreviation main_rois_ :=
  (main_rois applywarp Atlas getAtlasDescription loadAtlas atlas_get Image_load).
Local Abbreviation main_roi_stats_ := (main_roi_stats np_std np_median scipy_iqr).
Local Abbreviation get_stats_ := (get_stats np_std np_median scipy_iqr).

(** X16: where image loading, the transforms and the atlas registry
    return, the ROI list [main] builds is in this order: the four fixed
    ROIs [10%+GM], [10%+WM], [80%+GM], [80%+WM] (the GM and WM PVE images
    moved to native space and binarized at 0.1 and at 0.8), the native,
    structural and MNI ROIs of the command line under the names of their
    files, then, when asked for, the labels of the cortical and of the
    subcortical atlas. *)
Theorem main_rois_order opts asl_ref gm_pve wm_pve mni2struc_warp struct2asl_mat :
  let out := main_rois_ opts asl_ref gm_pve wm_pve mni2struc_warp struct2asl_mat [] in
  let fixed pve pct t :=
    mk_roi pct (Some pve) None
      (Some (applywarp pve asl_ref (struct_kwargs struct2asl_mat)))
      (MaskBool (np_gt (data (applywarp pve asl_ref (struct_kwargs struct2asl_mat)))
                   (num_of_Q t))) in
  take 4 out.1 =
    [ fixed gm_pve "10%+GM" (1 # 10); fixed wm_pve "10%+WM" (1 # 10);
      fixed gm_pve "80%+GM" (8 # 10); fixed wm_pve "80%+WM" (8 # 10) ] ∧
  name <$> out.1 =
    ["10%+GM"; "10%+WM"; "80%+GM"; "80%+WM"] ++
    (roi_name_of_file <$> opt_roi_native opts) ++
    (roi_name_of_file <$> opt_roi_struct opts) ++
    (roi_name_of_file <$> opt_roi_mni opts) ++
    (if opt_add_atlas_rois opts
     then (label_name <$> labels (getAtlasDescription "harvardoxford-cortical")) ++
          (label_name <$> labels (getAtlasDescription "harvardoxford-subcortical"))
     else []).
Proof.
  intros out fixed.
  assert (H10 : format_i (py_mul (PyFloat (num_of_Q (1 # 10))) (PyInt 100)) = Ok "10")
    by (by vm_compute).
  assert (H80 : format_i (py_mul (PyFloat (num_of_Q (8 # 10))) (PyInt 100)) = Ok "80")
    by (by vm_compute).
  assert (Hout : out =
    ([ fixed gm_pve "10%+GM" (1 # 10); fixed wm_pve "10%+WM" (1 # 10);
       fixed gm_pve "80%+GM" (8 # 10); fixed wm_pve "80%+WM" (8 # 10) ] ++
     ((λ fname, mk_roi (roi_name_of_file fname) None None None
                  (MaskNum (data (Image_load fname)))) <$> opt_roi_native opts) ++
     ((λ fname,
        let roi_native := applywarp (Image_load fname) asl_ref
                            (struct_kwargs struct2asl_mat) in
        mk_roi (roi_name_of_file fname) (Some (Image_load fname)) None
          (Some roi_native) (MaskBool (np_gt (data roi_native) threshold_default)))
      <$> opt_roi_struct opts) ++
     ((λ fname,
        let roi_native := applywarp (Image_load fname) asl_ref
                            (mni_kwargs mni2struc_warp struct2asl_mat) in
        mk_roi (roi_name_of_file fname) None (Some (Image_load fname))
          (Some roi_native) (MaskBool (np_gt (data roi_native) threshold_default)))
      <$> opt_roi_mni opts) ++
     (if opt_add_atlas_rois opts
      then ((λ label,
              let roi := atlas_get (loadAtlas
                           (atlasID (getAtlasDescription "harvardoxford-cortical")) 2)
                           label in
              let roi_native := applywarp roi asl_ref
                                  (mni_kwargs mni2struc_warp struct2asl_mat) in
              mk_roi (label_name label) None (Some roi) (Some roi_native)
                (MaskBool (np_gt (data roi_native) (num_of_Z 50))))
            <$> labels (getAtlasDescription "harvardoxford-cortical")) ++
           ((λ label,
              let roi := atlas_get (loadAtlas
                           (atlasID (getAtlasDescription "harvardoxford-subcortical")) 2)
                           label in
              let roi_native := applywarp roi asl_ref
                                  (mni_kwargs mni2struc_warp struct2asl_mat) in
              mk_roi (label_name label) None (Some roi) (Some roi_native)
                (MaskBool (np_gt (data roi_native) (num_of_Z 50))))
            <$> labels (getAtlasDescription "harvardoxford-subcortical"))
      else []),
     Ok tt)).
  { unfold out, main_rois. cbn [for_each]. rewrite H10, H80.
    erewrite st_bind_ok; [|reflexivity]. cbv beta.
    erewrite st_bind_ok; [|by apply for_each_appends]. cbv beta.
    erewrite st_bind_ok; [|by apply for_each_appends]. cbv beta.
    erewrite st_bind_ok; [|by apply for_each_appends]. cbv beta.
    unfold main_add_atlas_rois. destruct (opt_add_atlas_rois opts).
    - erewrite st_bind_ok; [|apply add_rois_from_atlas_run]. cbv beta.
      rewrite add_rois_from_atlas_run. cbv zeta. by rewrite <-!app_assoc.
    - unfold st_ret. by rewrite app_nil_r, <-!app_assoc. }
  rewrite Hout. cbn [fst snd]. split; [done|].
  rewrite !fmap_app, <-!list_fmap_compose.
  destruct (opt_add_atlas_rois opts); [|done].
  by rewrite !fmap_app, <-!list_fmap_compose.
Qed.

Local Abbreviation row_step roi min_nvoxels :=
  (λ (item : perfusion_record) (stats : gmap string pyval),
     get_stats_ stats (data (pd_f item)) (data (pd_var item))
       (mask_array (mask_native roi)) (pd_suffix item) true true min_nvoxels
       (pd_mask item)).

(** A call that returns has passed the shape validation. *)
Lemma get_stats_returns_valid stats img var_img roi suffix ignore_nan ignore_inf
    min_nvoxels mask st :
  get_stats_ stats img var_img roi suffix ignore_nan ignore_inf min_nvoxels mask
    = (st, Ok tt) →
  shape img = shape roi ∧ shape var_img = shape roi ∧
  ∀ m, mask = Some m → shape m = shape roi.
Proof.
  intros Hret.
  destruct (get_stats_valid_or_raises np_std np_median scipy_iqr stats img
              var_img roi suffix ignore_nan ignore_inf min_nvoxels mask)
    as [H|[e He]]; [done|]. rewrite He in Hret. discriminate Hret.
Qed.

(** A call that returns has written its seven columns. *)
Lemma get_stats_returns_columns stats img var_img roi suffix ignore_nan
    ignore_inf min_nvoxels mask st k :
  get_stats_ stats img var_img roi suffix ignore_nan ignore_inf min_nvoxels mask
    = (st, Ok tt) →
  k ∈ stat_keys suffix → is_Some (st !! k).
Proof.
  intros Hret Hk.
  destruct (get_stats_returns_valid _ _ _ _ _ _ _ _ _ _ Hret) as (Hi & Hv & Hm).
  unfold stat_keys, stat_names in Hk. cbn [fmap list_fmap] in Hk.
  rewrite !elem_of_cons, elem_of_nil in Hk.
  destruct (Z.lt_ge_cases
              (Z.of_nat (length (bool_index img
                 (effective_roi img roi ignore_nan ignore_inf mask))))
              min_nvoxels) as [Hlt|Hge].
  - rewrite get_stats_below in Hret by done. injection Hret as <-.
    destruct Hk as [->|[->|[->|[->|[->|[->|[->|[]]]]]]]];
      eexists; lookup_stat.
  - rewrite get_stats_enough in Hret by done.
    destruct (i2 _ _); [|discriminate Hret]. injection Hret as <-.
    destruct Hk as [->|[->|[->|[->|[->|[->|[->|[]]]]]]]];
      eexists; lookup_stat.
Qed.

(** The datasets of a row leave alone every key that is no column of
    theirs, however the loop ends. *)
Lemma row_frame roi min_nvoxels perfusion_data st0 k :
  (∀ item, item ∈ perfusion_data → k ∉ stat_keys (pd_suffix item)) →
  (for_each perfusion_data (row_step roi min_nvoxels) st0).1 !! k = st0 !! k.
Proof.
  revert st0. induction perfusion_data as [|d ds IH]; intros st0 Hk; [done|].
  cbn [for_each]. unfold st_bind at 1.
  destruct (get_stats_ st0 _ _ _ _ _ _ _ _) as [st1 [[]|e]] eqn:Hd.
  - rewrite IH by (intros item Hin; apply Hk; by right).
    replace st1 with (st1, @Ok unit tt).1 by done. rewrite <-Hd.
    apply get_stats_lookup_other, Hk. by left.
  - cbn [fst]. replace st1 with (st1, @Raise unit e).1 by done. rewrite <-Hd.
    apply get_stats_lookup_other, Hk. by left.
Qed.

Lemma row_columns roi min_nvoxels perfusion_data st0 row :
  NoDup (pd_suffix <$> perfusion_data) →
  for_each perfusion_data (row_step roi min_nvoxels) st0 = (row, Ok tt) →
  ∀ item, item ∈ perfusion_data →
    row !! ("Nvoxels" +:+ pd_suffix item) =
      Some (VInt (Z.of_nat (length
        (bool_index (data (pd_f item))
           (effective_roi (data (pd_f item)) (mask_array (mask_native roi))
              true true (pd_mask item)))))) ∧
    ∀ k, k ∈ stat_keys (pd_suffix item) → is_Some (row !! k).
Proof.
  revert st0. induction perfusion_data as [|d ds IH]; intros st0 Hnd Hrow item Hin.
  { by apply elem_of_nil in Hin. }
  cbn [fmap list_fmap] in Hnd. apply NoDup_cons in Hnd as [Hd Hnd].
  cbn [for_each] in Hrow. unfold st_bind at 1 in Hrow.
  destruct (get_stats_ st0 _ _ _ _ _ _ _ _) as [st1 [[]|e]] eqn:Hstep;
    [|discriminate Hrow].
  apply elem_of_cons in Hin as [->|Hin]; [|by eapply IH].
  assert (Hkeep : ∀ k, k ∈ stat_keys (pd_suffix d) → row !! k = st1 !! k).
  { intros k Hk. replace row with (row, @Ok unit tt).1 by done. rewrite <-Hrow.
    apply row_frame. intros item Hitem. eapply stat_keys_disjoint; [|exact Hk].
    intros Heq. apply Hd. rewrite Heq. by apply list_elem_of_fmap_2. }
  destruct (get_stats_returns_valid _ _ _ _ _ _ _ _ _ _ Hstep) as (Hi & Hv & Hm).
  split.
  - rewrite Hkeep by (unfold stat_keys, stat_names; cbn [fmap list_fmap]; by left).
    replace st1 with (st1, @Ok unit tt).1 by done. rewrite <-Hstep.
    by apply get_stats_nvoxels.
  - intros k Hk. rewrite Hkeep by done. by eapply get_stats_returns_columns.
Qed.

Lemma NoDup_stat_keys suffix : NoDup (stat_keys suffix).
Proof.
  unfold stat_keys. apply NoDup_fmap_2_strong.
  - intros n1 n2 H1 H2 Heq. by destruct (stat_key_inj n1 n2 suffix suffix H1 H2 Heq).
  - unfold stat_names. apply (bool_decide_unpack _). by vm_compute.
Qed.

(** X17: when the datasets carry pairwise different suffixes and the row
    of an ROI is completed, the row holds the ROI's name, and for every
    dataset its own voxel count under [Nvoxels<suffix>] and a value under
    each of its seven columns: no dataset has overwritten another, and
    the row has exactly [1 + 7 * len(perfusion_data)] fields. *)
Theorem main_roi_stats_row perfusion_data min_nvoxels roi row :
  NoDup (pd_suffix <$> perfusion_data) →
  main_roi_stats_ perfusion_data min_nvoxels roi = (row, Ok tt) →
  row !! "name" = Some (VStr (name roi)) ∧
  (∀ item, item ∈ perfusion_data →
     row !! ("Nvoxels" +:+ pd_suffix item) =
       Some (VInt (Z.of_nat (length
         (bool_index (data (pd_f item))
            (effective_roi (data (pd_f item)) (mask_array (mask_native roi))
               true true (pd_mask item)))))) ∧
     ∀ k, k ∈ stat_keys (pd_suffix item) → is_Some (row !! k)) ∧
  size row = S (7 * length perfusion_data).
Proof.
  intros Hnd Hrow. unfold main_roi_stats in Hrow.
  assert (Hframe : ∀ k,
            (∀ item, item ∈ perfusion_data → k ∉ stat_keys (pd_suffix item)) →
            row !! k = ({[ "name" := VStr (name roi) ]} : gmap string pyval) !! k).
  { intros k Hk. replace row with (row, @Ok unit tt).1 by done. rewrite <-Hrow.
    by apply row_frame. }
  assert (Hname : row !! "name" = Some (VStr (name roi))).
  { rewrite Hframe; [by rewrite lookup_singleton_eq|].
    intros item _. apply name_not_stat_key. }
  split; [done|]. split; [by eapply row_columns|].
  set (keys := (pd_suffix <$> perfusion_data) ≫= stat_keys).
  assert (Hkeys : NoDup ("name" :: keys)).
  { apply NoDup_cons. split.
    - unfold keys. intros (s & Hk & _)%list_elem_of_bind.
      by apply name_not_stat_key in Hk.
    - apply NoDup_bind; [|intros; apply NoDup_stat_keys|done].
      intros s1 s2 k _ _ H1 H2. destruct (decide (s1 = s2)) as [|Hne]; [done|].
      by destruct (stat_keys_disjoint s1 s2 k Hne H1). }
  assert (Hdom : dom row = list_to_set ("name" :: keys)).
  { apply set_eq. intros k. rewrite elem_of_dom, elem_of_list_to_set, elem_of_cons.
    split.
    - intros Hk. destruct (decide (k = "name")) as [|Hne]; [by left|]. right.
      destruct (decide (k ∈ keys)) as [|Hnk]; [done|]. exfalso.
      rewrite Hframe in Hk.
      + rewrite lookup_singleton_ne in Hk by done. by destruct Hk.
      + intros item Hitem Hin. apply Hnk. unfold keys.
        apply list_elem_of_bind. exists (pd_suffix item).
        split; [done | by apply list_elem_of_fmap_2].
    - intros [->|Hk]; [by rewrite Hname|].
      unfold keys in Hk. apply list_elem_of_bind in Hk as (s & Hk & Hs).
      apply list_elem_of_fmap in Hs as (item & -> & Hitem).
      by eapply (row_columns roi min_nvoxels perfusion_data). }
  rewrite <-size_dom, Hdom, size_list_to_set by done.
  cbn [length]. f_equal. unfold keys. clear.
  induction perfusion_data as [|d ds IH]; [done|].
  cbn [fmap list_fmap mbind list_bind]. rewrite length_app, IH.
  unfold stat_keys, stat_names. cbn [fmap list_fmap length]. lia.
Qed.

(** X18: whatever the directory holds, the datasets [get_perfusion_data]
    returns carry pairwise different suffixes, so their 21 columns are
    pairwise different names, none of them ["name"]. *)
Theorem get_perfusion_data_columns_distinct os_path_isdir outdir gm_pve_asl
    wm_pve_asl :
  ∃ perfusion_data,
    get_perfusion_data Image_load os_path_isdir outdir gm_pve_asl wm_pve_asl
      = Ok perfusion_data ∧
    NoDup (pd_suffix <$> perfusion_data) ∧
    NoDup ("name" :: ((pd_suffix <$> perfusion_data) ≫= stat_keys)) ∧
    length ((pd_suffix <$> perfusion_data) ≫= stat_keys) = 21%nat.
Proof.
  assert (Hfmt : format_i (py_mul (PyFloat PVE_THRESHOLD_NOPVC) (PyInt 100)) = Ok "80")
    by (by vm_compute).
  unfold get_perfusion_data. rewrite Hfmt.
  destruct (os_path_isdir _); eexists; (split; [reflexivity|]);
    cbn [fmap list_fmap app pd_suffix mbind result_bind];
    (split; [apply (bool_decide_unpack _); by vm_compute|]);
    (split; [apply (bool_decide_unpack _); by vm_compute | done]).
Qed.

End orchestrator_properties.

Lemma main_roi_stats_row_witness :
  let roi := mk_roi "lesion" None None None
               (MaskNum (mk_ndarray grid_sample (floats [1; 1; 0; 3]))) in
  let out := main_roi_stats np_mean np_mean np_mean perfusion_data_sample 2 roi in
  NoDup (pd_suffix <$> perfusion_data_sample) ∧
  out.2 = Ok tt ∧
  out.1 !! "name" = Some (VStr "lesion") ∧
  size out.1 = 15%nat.
Proof.
  intros roi out.
  assert (Hnd : NoDup (pd_suffix <$> perfusion_data_sample)).
  { apply (bool_decide_unpack _). by vm_compute. }
  assert (Hret : out.2 = Ok tt) by (by vm_compute).
  assert (Hout : main_roi_stats np_mean np_mean np_mean perfusion_data_sample 2 roi
                 = (out.1, Ok tt)).
  { rewrite <-Hret. apply surjective_pairing. }
  split; [exact Hnd|]. split; [exact Hret|].
  destruct (main_roi_stats_row np_mean np_mean np_mean perfusion_data_sample 2
              roi out.1 Hnd Hout) as (Hname & _ & Hsize).
  split; [exact Hname | exact Hsize].
Defined.

(* ================================================================== *)
(** * An upper bound on the heterogeneity percentage *)
























